(** * flaskfeed-api: the blog-post handlers of [backend/backend_app.py]

    A shallow embedding of the five Flask request handlers ([get_posts],
    [add_post], [delete_post], [update_post], [search_post]) working on the
    module-level list [POSTS], followed by the properties of the handlers.

    Conventions of the embedding:
    - a post dict [{"id": .., "title": .., "content": ..}] is a record; its
      title and content are whatever JSON value a request body supplied,
      since the handlers store them unchecked;
    - a JSON value is null, a boolean, an integer, a string or an array;
      numbers with a fraction and nested objects are left out: the handlers
      treat them like the other values that are not strings;
    - Python [str] is [string]; the integer ids are unbounded, hence [Z];
    - a query-string value read with [request.args.get] is an
      [option string]: [None] is Python's [None] (key absent);
    - the global list [POSTS] is the state of a small state monad [M];
    - an exception that escapes a view is answered by Flask with status
      500: [server_error];
    - [str.lower] is a builtin whose Unicode tables are not part of the
      repository: the handlers take it as the parameter [lower];
      [ascii_lower] is its restriction to ASCII, used to run the handlers. *)

From Stdlib Require Import String Ascii List ZArith Bool Lia Permutation Sorted.
From Stdlib Require Import DecimalString OrdersEx.
Import ListNotations.

Local Open Scope string_scope.
Local Open Scope Z_scope.

Set Warnings "-register-all".

(** ** JSON values *)

Inductive Value : Type :=
| VNone
| VBool (b : bool)
| VInt (n : Z)
| VStr (s : string)
| VList (l : list Value).

(** Truth value of a JSON value: [None], [False], [0], [""] and [[]] are
    falsy. *)
Definition value_truthy (v : Value) : bool :=
  match v with
  | VNone => false
  | VBool b => b
  | VInt n => negb (n =? 0)
  | VStr EmptyString => false
  | VStr (String _ _) => true
  | VList [] => false
  | VList (_ :: _) => true
  end.

(** [v == w]: strings equal strings only, [True == 1] and [False == 0],
    arrays are compared element by element. *)
Fixpoint value_equal (v w : Value) : bool :=
  match v, w with
  | VNone, VNone => true
  | VBool b, VBool b' => Bool.eqb b b'
  | VBool b, VInt n => (if b then 1 else 0) =? n
  | VInt n, VBool b => n =? (if b then 1 else 0)
  | VInt n, VInt n' => n =? n'
  | VStr s, VStr s' => (s =? s')%string
  | VList l, VList l' =>
      (fix all_equal (l l' : list Value) : bool :=
         match l, l' with
         | [], [] => true
         | x :: l, y :: l' => value_equal x y && all_equal l l'
         | _, _ => false
         end) l l'
  | _, _ => false
  end.

(** [v.lower()]: [None] stands for the [AttributeError] raised when [v] is
    not a string. *)
Definition value_lower (lower : string -> string) (v : Value) : option string :=
  match v with
  | VStr s => Some (lower s)
  | _ => None
  end.

(** ** Posts *)

Module Post.

Record t : Type := mk { id : Z; title : Value; content : Value }.

(** [post['title'] = v] and [post['content'] = v] *)
Definition set_title (v : Value) (p : t) : t := mk (id p) v (content p).
Definition set_content (v : Value) (p : t) : t := mk (id p) (title p) v.

(** [==] on two post dicts: same keys, equal values *)
Definition eqb (p q : t) : bool :=
  (id p =? id q) && value_equal (title p) (title q) && value_equal (content p) (content q).

End Post.

(** ** Python values and builtins used by the handlers *)

(** Truth value of the result of [request.args.get]: [None] and [""] are
    falsy. *)
Definition truthy (v : option string) : bool :=
  match v with
  | Some (String _ _) => true
  | _ => false
  end.

(** The string carried by a value known to be truthy. *)
Definition str_value (v : option string) : string :=
  match v with
  | Some s => s
  | None => ""
  end.

(** [v == s] for a value [v] that may be [None] *)
Definition value_eqb (v : option string) (s : string) : bool :=
  match v with
  | Some s' => (s' =? s)%string
  | None => false
  end.

(** The query-string [args] as seen through [.get(key)]. *)
Definition dict : Type := string -> option string.

Definition get (d : dict) (key : string) : option string := d key.

(** [d.get(key, default)] *)
Definition get_default (d : dict) (key default : string) : string :=
  match d key with
  | Some s => s
  | None => default
  end.

(** The JSON object of a request body as seen through [.get(key)]: an
    absent key gives [None]. *)
Definition object : Type := string -> Value.

Definition field (data : object) (key : string) : Value := data key.

(** [str(n)] for an integer, as an f-string interpolates it. *)
Definition str (n : Z) : string := NilEmpty.string_of_int (Z.to_int n).

(** [needle in hay] on strings: [needle] occurs as a substring of [hay]. *)
Fixpoint contains (needle hay : string) : bool :=
  match hay with
  | EmptyString => prefix needle EmptyString
  | String _ hay' => prefix needle hay || contains needle hay'
  end.

(** [x in l] on a list of posts *)
Fixpoint list_in (x : Post.t) (l : list Post.t) : bool :=
  match l with
  | [] => false
  | y :: l' => Post.eqb y x || list_in x l'
  end.

(** [l.remove(x)]: drops the first element equal to [x]. *)
Fixpoint list_remove (x : Post.t) (l : list Post.t) : list Post.t :=
  match l with
  | [] => []
  | y :: l' => if Post.eqb y x then l' else y :: list_remove x l'
  end.

(** In-place mutation of the element at index [i]. *)
Fixpoint list_update (i : nat) (f : Post.t -> Post.t) (l : list Post.t) : list Post.t :=
  match l, i with
  | [], _ => []
  | y :: l', O => f y :: l'
  | y :: l', S i' => y :: list_update i' f l'
  end.

(** [sorted(l, key=.., reverse=reverse)] once the keys are computed.  The
    builtin is a stable sort that compares keys with [<] only; with
    [reverse=True] it reverses the list, sorts it and reverses the result,
    which keeps the sort stable.  [stable_sorted_unique] below shows that
    the outcome does not depend on the sorting algorithm, taken here to be
    a stable insertion sort. *)
Section Sorted.

Variable key : Post.t -> string.

Fixpoint insert (x : Post.t) (l : list Post.t) : list Post.t :=
  match l with
  | [] => [x]
  | y :: l' => if (key y <? key x)%string then y :: insert x l' else x :: y :: l'
  end.

Fixpoint sort (l : list Post.t) : list Post.t :=
  match l with
  | [] => []
  | x :: l' => insert x (sort l')
  end.

Definition sorted (reverse : bool) (l : list Post.t) : list Post.t :=
  if reverse then rev (sort (rev l)) else sort l.

End Sorted.

(** The key of a post whose key function returned, [""] standing in where
    it raised (never looked at: see [sorted_with]). *)
Definition key_or_empty (key : Post.t -> option string) (p : Post.t) : string :=
  match key p with
  | Some k => k
  | None => ""
  end.

Definition returns (key : Post.t -> option string) (p : Post.t) : bool :=
  match key p with
  | Some _ => true
  | None => false
  end.

(** [sorted(l, key=key, reverse=reverse)] with a key function that may
    raise: the builtin computes the key of every element before it sorts,
    and an exception raised by the key function escapes ([None]). *)
Definition sorted_with (key : Post.t -> option string) (reverse : bool)
    (l : list Post.t) : option (list Post.t) :=
  if forallb (returns key) l then Some (sorted (key_or_empty key) reverse l)
  else None.

(** [str.lower] on ASCII strings *)
Definition ascii_lower_char (c : ascii) : ascii :=
  let n := nat_of_ascii c in
  if (65 <=? n)%nat && (n <=? 90)%nat then ascii_of_nat (n + 32) else c.

Fixpoint ascii_lower (s : string) : string :=
  match s with
  | EmptyString => EmptyString
  | String c s' => String (ascii_lower_char c) (ascii_lower s')
  end.

(** ** Responses *)

(** What [jsonify] is applied to in the handlers; [Uncaught] is the page
    Flask answers with when an exception escapes the view. *)
Inductive Json : Type :=
| JPosts (posts : list Post.t)
| JPost (post : Post.t)
| JError (msg : string)
| JSuccess (msg : string)
| JMessage (msg : string)
| Uncaught.

(** A view's return value [(body, status)]; a view that returns the body
    alone is answered by Flask with status 200. *)
Record Response : Type := response { body : Json; status : Z }.

(** Flask's answer to an exception that escapes the view. *)
Definition server_error : Response := response Uncaught 500.

(** ** The registry as state *)

(** A handler reads and writes the module-level list [POSTS]. *)
Definition M (A : Type) : Type := list Post.t -> A * list Post.t.

Definition ret {A : Type} (a : A) : M A := fun s => (a, s).

Definition bind {A B : Type} (m : M A) (k : A -> M B) : M B :=
  fun s => let (a, s') := m s in k a s'.

Definition read : M (list Post.t) := fun s => (s, s).

Definition modify (f : list Post.t -> list Post.t) : M unit := fun s => (tt, f s).

Notation "x <- m ;; k" := (bind m (fun x => k))
  (at level 61, m at next level, right associativity).
Notation "m ;;; k" := (bind m (fun _ => k))
  (at level 61, right associativity).

Definition run {A : Type} (m : M A) (s : list Post.t) : A * list Post.t := m s.

(** The registry at process start. *)
Definition POSTS : list Post.t :=
  [ Post.mk 1 (VStr "First post") (VStr "This is the first post.");
    Post.mk 2 (VStr "Second post") (VStr "This is the second post.") ].

(** ** The handlers *)

Section Readers.

Variable lower : string -> string.

Definition get_title (post : Post.t) : option string :=
  value_lower lower (Post.title post).
Definition get_content (post : Post.t) : option string :=
  value_lower lower (Post.content post).

(** [GET /api/posts] *)
Definition get_posts (args : dict) : M Response :=
  let sort_tag := get args "sort" in
  let direction_tag := get_default args "direction" "asc" in
  registry <- read ;;
  let posts := registry in (* POSTS.copy() *)
  let posts :=
    if value_eqb sort_tag "title" then
      let reverse := if (lower direction_tag =? "desc")%string then true else false in
      sorted_with get_title reverse posts
    else if value_eqb sort_tag "content" then
      let reverse := if (lower direction_tag =? "desc")%string then true else false in
      sorted_with get_content reverse posts
    else Some posts in
  match posts with
  | Some posts => ret (response (JPosts posts) 200)
  | None => ret server_error
  end.

(** The body of the [for post in POSTS] loop of [search_post], with
    [search_lst] threaded through; [None] when [.lower()] raises. *)
Definition search_step (title content : option string)
    (search_lst : list Post.t) (post : Post.t) : option (list Post.t) :=
  let after_title :=
    if truthy title then
      match get_title post with
      | Some t =>
          Some (if contains (lower (str_value title)) t
                then (search_lst ++ [post])%list
                else search_lst)
      | None => None
      end
    else Some search_lst in
  match after_title with
  | None => None
  | Some search_lst =>
      if truthy content then
        match get_content post with
        | Some c =>
            Some (if contains (lower (str_value content)) c
                  then
                    if negb (list_in post search_lst)
                    then (search_lst ++ [post])%list
                    else search_lst
                  else search_lst)
        | None => None
        end
      else Some search_lst
  end.

Fixpoint search_loop (title content : option string) (todo search_lst : list Post.t)
  : option (list Post.t) :=
  match todo with
  | [] => Some search_lst
  | post :: todo' =>
      match search_step title content search_lst post with
      | Some search_lst => search_loop title content todo' search_lst
      | None => None
      end
  end.

(** [GET /api/posts/search] *)
Definition search_post (args : dict) : M Response :=
  let title := get args "title" in
  let content := get args "content" in
  if negb (truthy title) && negb (truthy content) then
    ret (response (JError "Please provide title or content query") 400)
  else
    registry <- read ;;
    match search_loop title content registry [] with
    | Some search_lst => ret (response (JPosts search_lst) 200)
    | None => ret server_error
    end.

End Readers.

(** [POST /api/posts] *)
Definition add_post (data : object) : M Response :=
  let title := field data "title" in
  let content := field data "content" in
  if negb (value_truthy title) || negb (value_truthy content) then
    ret (response (JError "Please fill out required fields") 400)
  else
    registry <- read ;;
    let new_post := Post.mk (Z.of_nat (length registry) + 1) title content in
    modify (fun l => (l ++ [new_post])%list) ;;;
    ret (response (JPost new_post) 201).

(** [DELETE /api/posts/<int:post_id>]: the loop over the posts still to be
    visited. *)
Fixpoint delete_loop (post_id : Z) (todo : list Post.t) : M Response :=
  match todo with
  | [] =>
      ret (response (JError ("Post with id (" ++ str post_id ++ ") do not exist.")) 404)
  | post :: todo' =>
      if Post.id post =? post_id then
        modify (list_remove post) ;;;
        ret (response
               (JSuccess ("Post with id (" ++ str post_id ++ ") has been deleted successfully."))
               200)
      else delete_loop post_id todo'
  end.

Definition delete_post (post_id : Z) : M Response :=
  registry <- read ;;
  delete_loop post_id registry.

(** [PUT /api/posts/<int:post_id>]: the loop; [i] is the index in [POSTS]
    of the dict that [post] refers to, so that assigning to [post[..]]
    changes the registry's own element. *)
Fixpoint update_loop (new_title new_content : Value) (post_id : Z)
    (i : nat) (todo : list Post.t) : M Response :=
  match todo with
  | [] =>
      ret (response (JError ("Post with id (" ++ str post_id ++ ") do not exist.")) 404)
  | post :: todo' =>
      if Post.id post =? post_id then
        if negb (value_truthy new_title) && negb (value_truthy new_content) then
          ret (response (JError "Bad request: Nothing was changed") 400)
        else
          is_new_title <-
            (if value_truthy new_title then
               modify (list_update i (Post.set_title new_title)) ;;;
               ret true
             else ret false) ;;
          if value_truthy new_content then
            modify (list_update i (Post.set_content new_content)) ;;;
            if is_new_title : bool then
              ret (response
                     (JMessage ("title and content of post (" ++ str post_id ++ ") was updated."))
                     200)
            else
              ret (response
                     (JMessage ("content of post (" ++ str post_id ++ ") was updated."))
                     200)
          else
            ret (response
                   (JMessage ("title of post (" ++ str post_id ++ ") was updated."))
                   200)
      else update_loop new_title new_content post_id (S i) todo'
  end.

Definition update_post (post_id : Z) (data : object) : M Response :=
  let new_title := field data "title" in
  let new_content := field data "content" in
  registry <- read ;;
  update_loop new_title new_content post_id 0 registry.

(** ** Vocabulary of the properties *)

(** [needle] occurs in [hay]. *)
Definition substring_of (needle hay : string) : Prop :=
  exists before after, hay = before ++ needle ++ after.

(** A stored value is a string; its text ([""] for a value that is none). *)
Definition is_str (v : Value) : bool :=
  match v with
  | VStr _ => true
  | _ => false
  end.

Definition text (v : Value) : string :=
  match v with
  | VStr s => s
  | _ => ""
  end.

(** Every title, every content of the registry is a string. *)
Definition string_titles (registry : list Post.t) : Prop :=
  Forall (fun p => is_str (Post.title p) = true) registry.

Definition string_contents (registry : list Post.t) : Prop :=
  Forall (fun p => is_str (Post.content p) = true) registry.

Definition string_fields (registry : list Post.t) : Prop :=
  string_titles registry /\ string_contents registry.

(** Sortedness by a string key, and stability with respect to the input:
    the posts of any given key come out in the order they came in. *)
Definition ascending (key : Post.t -> string) (l : list Post.t) : Prop :=
  StronglySorted (fun a b => (key a <=? key b)%string = true) l.

Definition descending (key : Post.t -> string) (l : list Post.t) : Prop :=
  StronglySorted (fun a b => (key b <=? key a)%string = true) l.

Definition stable (key : Post.t -> string) (l out : list Post.t) : Prop :=
  forall k, filter (fun p => (key p =? k)%string) out
            = filter (fun p => (key p =? k)%string) l.

Definition sorted_by (key : Post.t -> string) (desc : bool) (l out : list Post.t) : Prop :=
  Permutation l out
  /\ (if desc then descending key out else ascending key out)
  /\ stable key l out.

(** A value read with [request.args.get] is absent, or the empty string. *)
Definition falsy (v : option string) : Prop := v = None \/ v = Some "".

(** A JSON value is falsy: absent or null, [False], [0], [""] or [[]]. *)
Definition value_falsy (v : Value) : Prop :=
  v = VNone \/ v = VBool false \/ v = VInt 0 \/ v = VStr "" \/ v = VList [].

(** [direction] is given and is ['desc'] up to case. *)
Definition is_desc (lower : string -> string) (direction : option string) : Prop :=
  exists d, direction = Some d /\ lower d = "desc".

(** [posts] lists [registry] sorted by [key], stably, in the direction asked. *)
Definition listing (lower : string -> string) (key : Post.t -> string)
    (direction : option string) (registry posts : list Post.t) : Prop :=
  Permutation registry posts
  /\ stable key registry posts
  /\ (is_desc lower direction -> descending key posts)
  /\ (~ is_desc lower direction -> ascending key posts).

(** The contract of [get_posts] as the specification words it: always
    status 200, sorted on request, else in insertion order. *)
Definition get_posts_contract (lower : string -> string) (args : dict)
    (registry : list Post.t) : Prop :=
  let sort_tag := get args "sort" in
  let direction := get args "direction" in
  exists posts,
    fst (run (get_posts lower args) registry) = response (JPosts posts) 200
    /\ (sort_tag = Some "title" ->
        listing lower (fun p => lower (text (Post.title p))) direction registry posts)
    /\ (sort_tag = Some "content" ->
        listing lower (fun p => lower (text (Post.content p))) direction registry posts)
    /\ (sort_tag <> Some "title" -> sort_tag <> Some "content" -> posts = registry).

(** [l] splits around [p], the first of its posts whose id is [post_id]. *)
Definition first_with_id (post_id : Z) (l l1 : list Post.t) (p : Post.t) (l2 : list Post.t)
  : Prop :=
  l = (l1 ++ p :: l2)%list
  /\ Post.id p = post_id
  /\ Forall (fun q => Post.id q <> post_id) l1.

Definition has_id (post_id : Z) (l : list Post.t) : Prop :=
  exists p, In p l /\ Post.id p = post_id.

(** A query value is provided and occurs, case-insensitively, in a field. *)
Definition hit (lower : string -> string) (query : option string) (field : string) : Prop :=
  exists q, query = Some q /\ q <> "" /\ substring_of (lower q) (lower field).

Definition hitb (lower : string -> string) (query : option string) (field : string) : bool :=
  truthy query && contains (lower (str_value query)) (lower field).

Definition matches (lower : string -> string) (title content : option string)
    (p : Post.t) : bool :=
  hitb lower title (text (Post.title p)) || hitb lower content (text (Post.content p)).



(** The loop body of [search_post] on a post whose fields are strings. *)
Definition search_step_str (lower : string -> string) (title content : option string)
    (search_lst : list Post.t) (post : Post.t) : list Post.t :=
  let search_lst :=
    if hitb lower title (text (Post.title post))
    then (search_lst ++ [post])%list
    else search_lst in
  if hitb lower content (text (Post.content post))
  then
    if negb (list_in post search_lst) then (search_lst ++ [post])%list else search_lst
  else search_lst.

(** The loop body of [search_post] does not raise on a post. *)
Definition searchable (title content : option string) (p : Post.t) : bool :=
  (negb (truthy title) || is_str (Post.title p))
  && (negb (truthy content) || is_str (Post.content p)).

(** The fields named by the success message of [update_post]. *)
Definition changed_fields (new_title new_content : Value) : string :=
  if value_truthy new_content then
    if value_truthy new_title then "title and content" else "content"
  else "title".

(** The matched post after an update: truthy fields overwritten. *)
Definition updated (new_title new_content : Value) (p : Post.t) : Post.t :=
  Post.mk (Post.id p)
    (if value_truthy new_title then new_title else Post.title p)
    (if value_truthy new_content then new_content else Post.content p).

(** The query string given by its items; [.get] returns the first binding
    of the key. *)
Fixpoint items (kvs : list (string * string)) : dict :=
  fun key =>
    match kvs with
    | [] => None
    | (k, v) :: kvs' => if (k =? key)%string then Some v else items kvs' key
    end.

(** A JSON object given by its members. *)
Fixpoint json (kvs : list (string * Value)) : object :=
  fun key =>
    match kvs with
    | [] => VNone
    | (k, v) :: kvs' => if (k =? key)%string then v else json kvs' key
    end.

(** The registry after [DELETE /api/posts/1] and a [POST /api/posts] that
    repeats the title and content of the surviving seed post. *)
Definition twin_registry : list Post.t :=
  snd (run (add_post (json [("title", VStr "Second post");
                            ("content", VStr "This is the second post.")]))
         (snd (run (delete_post 1) POSTS))).

(** The registry after a [POST /api/posts] whose title is a number. *)
Definition numeric_registry : list Post.t :=
  snd (run (add_post (json [("title", VInt 123); ("content", VStr "text")])) POSTS).

(** ** Vocabulary of the further properties *)

(** The ids of the registry are 1, 2, ..., n in this order. *)
Definition ids_sequential (registry : list Post.t) : Prop :=
  map Post.id registry = map Z.of_nat (seq 1 (length registry)).

(** No post holds an empty (falsy) title or content. *)
Definition nonempty_fields (registry : list Post.t) : Prop :=
  Forall (fun p => value_truthy (Post.title p) = true
                   /\ value_truthy (Post.content p) = true) registry.

(** How many posts of [l] are equal to [p]. *)
Definition occurrences (p : Post.t) (l : list Post.t) : nat :=
  List.length (filter (fun q => Post.eqb q p) l).

(** [l1] is [l2] with some of its elements left out, order kept. *)
Inductive subseq : list Post.t -> list Post.t -> Prop :=
| subseq_nil : subseq [] []
| subseq_skip (x : Post.t) (l1 l2 : list Post.t) : subseq l1 l2 -> subseq l1 (x :: l2)
| subseq_keep (x : Post.t) (l1 l2 : list Post.t) : subseq l1 l2 -> subseq (x :: l1) (x :: l2).

(** The post that [add_post] builds from a valid body. *)
Definition created (data : object) (registry : list Post.t) : Post.t :=
  Post.mk (Z.of_nat (List.length registry) + 1) (field data "title") (field data "content").

(** ** Runs on the seed registry *)

Example twin_registry_posts :
  twin_registry
  = [ Post.mk 2 (VStr "Second post") (VStr "This is the second post.");
      Post.mk 2 (VStr "Second post") (VStr "This is the second post.") ].
Proof. vm_compute. reflexivity. Qed.

Example numeric_registry_posts :
  numeric_registry = (POSTS ++ [Post.mk 3 (VInt 123) (VStr "text")])%list.
Proof. vm_compute. reflexivity. Qed.

Example get_posts_seed_title_desc :
  run (get_posts ascii_lower (items [("sort", "title"); ("direction", "DESC")])) POSTS
  = (response (JPosts (rev POSTS)) 200, POSTS).
Proof. vm_compute. reflexivity. Qed.

Example get_posts_numeric_title :
  run (get_posts ascii_lower (items [("sort", "title")])) numeric_registry
  = (server_error, numeric_registry).
Proof. vm_compute. reflexivity. Qed.

Example get_posts_numeric_unsorted :
  run (get_posts ascii_lower (items [])) numeric_registry
  = (response (JPosts numeric_registry) 200, numeric_registry).
Proof. vm_compute. reflexivity. Qed.

Example search_seed_first :
  fst (run (search_post ascii_lower (items [("title", "first")])) POSTS)
  = response (JPosts [Post.mk 1 (VStr "First post") (VStr "This is the first post.")]) 200.
Proof. vm_compute. reflexivity. Qed.

Example search_numeric_title :
  fst (run (search_post ascii_lower (items [("title", "first")])) numeric_registry)
  = server_error.
Proof. vm_compute. reflexivity. Qed.

Example search_seed_both_once :
  fst (run (search_post ascii_lower (items [("title", "SECOND"); ("content", "second post")]))
         POSTS)
  = response (JPosts [Post.mk 2 (VStr "Second post") (VStr "This is the second post.")]) 200.
Proof. vm_compute. reflexivity. Qed.

Example search_twins_by_title :
  fst (run (search_post ascii_lower (items [("title", "second")])) twin_registry)
  = response (JPosts twin_registry) 200.
Proof. vm_compute. reflexivity. Qed.

Example search_twins_by_content :
  fst (run (search_post ascii_lower (items [("content", "second")])) twin_registry)
  = response (JPosts [Post.mk 2 (VStr "Second post") (VStr "This is the second post.")]) 200.
Proof. vm_compute. reflexivity. Qed.

Example str_digits : str 0 = "0" /\ str 9999 = "9999" /\ str (-5) = "-5".
Proof. repeat split. Qed.

Example add_post_seed_empty_title :
  run (add_post (json [("title", VStr ""); ("content", VStr "text")])) POSTS
  = (response (JError "Please fill out required fields") 400, POSTS).
Proof. vm_compute. reflexivity. Qed.

Example add_post_seed_zero_title :
  run (add_post (json [("title", VInt 0); ("content", VStr "text")])) POSTS
  = (response (JError "Please fill out required fields") 400, POSTS).
Proof. vm_compute. reflexivity. Qed.

Example delete_seed_9999 :
  run (delete_post 9999) POSTS
  = (response (JError "Post with id (9999) do not exist.") 404, POSTS).
Proof. vm_compute. reflexivity. Qed.

Example update_seed_content :
  run (update_post 2 (json [("content", VStr "new")])) POSTS
  = (response (JMessage "content of post (2) was updated.") 200,
     [ Post.mk 1 (VStr "First post") (VStr "This is the first post.");
       Post.mk 2 (VStr "Second post") (VStr "new") ]).
Proof. vm_compute. reflexivity. Qed.

(** ** Strings: substrings and the lexicographic order *)

Lemma prefix_iff (s1 s2 : string) :
  prefix s1 s2 = true <-> exists rest, s2 = s1 ++ rest.
Proof.
  revert s2; induction s1 as [|c s1 IH]; intros s2.
  - split; [intros _; exists s2; reflexivity | intros _; destruct s2; reflexivity].
  - destruct s2 as [|c' s2]; simpl.
    + split; [discriminate | intros [rest H]; discriminate].
    + destruct (ascii_dec c c') as [->|Hne].
      * rewrite IH. split; intros [rest H]; exists rest.
        -- now rewrite H.
        -- now injection H.
      * split; [discriminate | intros [rest H]; injection H; congruence].
Qed.

Lemma contains_spec (needle hay : string) :
  contains needle hay = true <-> substring_of needle hay.
Proof.
  unfold substring_of; split.
  - induction hay as [|c hay IH]; simpl.
    + intros H; apply (prefix_iff needle "") in H; destruct H as [rest H].
      exists "", rest; exact H.
    + intros H; apply orb_true_iff in H; destruct H as [H|H].
      * apply (prefix_iff needle (String c hay)) in H; destruct H as [rest H].
        exists "", rest; exact H.
      * destruct (IH H) as (a & b & ->). exists (String c a), b; reflexivity.
  - intros (a & b & ->). induction a as [|c a IH].
    + assert (P : prefix needle (needle ++ b) = true)
        by (apply prefix_iff; now exists b).
      change ("" ++ needle ++ b) with (needle ++ b).
      destruct (needle ++ b); cbn [contains]; [exact P | now rewrite P].
    + change (String c a ++ needle ++ b) with (String c (a ++ needle ++ b)).
      cbn [contains]. rewrite IH; apply orb_true_r.
Qed.

Lemma contains_middle (a s b : string) : contains s (a ++ s ++ b) = true.
Proof. apply contains_spec; now exists a, b. Qed.

Lemma compare_as_OT (a b : string) : String_as_OT.compare a b = (a ?= b)%string.
Proof.
  revert b; induction a as [|c a IH]; intros [|c' b]; reflexivity.
Qed.

Lemma string_lt_trans (a b c : string) :
  (a ?= b)%string = Lt -> (b ?= c)%string = Lt -> (a ?= c)%string = Lt.
Proof.
  rewrite <- !compare_as_OT.
  apply (@RelationClasses.StrictOrder_Transitive _ _ String_as_OT.lt_strorder).
Qed.

Lemma leb_refl (a : string) : (a <=? a)%string = true.
Proof. destruct (String.leb_total a a); assumption. Qed.

Lemma leb_trans (a b c : string) :
  (a <=? b)%string = true -> (b <=? c)%string = true -> (a <=? c)%string = true.
Proof.
  unfold String.leb.
  destruct (a ?= b)%string eqn:Hab; try discriminate;
    destruct (b ?= c)%string eqn:Hbc; try discriminate; intros _ _.
  - apply String.compare_eq_iff in Hab. rewrite Hab. now rewrite Hbc.
  - apply String.compare_eq_iff in Hab. rewrite Hab. now rewrite Hbc.
  - apply String.compare_eq_iff in Hbc. rewrite <- Hbc. now rewrite Hab.
  - now rewrite (string_lt_trans _ _ _ Hab Hbc).
Qed.

Lemma ltb_leb (a b : string) : (a <? b)%string = true -> (a <=? b)%string = true.
Proof. unfold String.ltb, String.leb. now destruct (a ?= b)%string. Qed.

Lemma ltb_false_leb (a b : string) : (a <? b)%string = false -> (b <=? a)%string = true.
Proof.
  unfold String.ltb, String.leb. rewrite (String.compare_antisym b a).
  now destruct (a ?= b)%string.
Qed.

Lemma ltb_neq (a b : string) : (a <? b)%string = true -> a <> b.
Proof.
  unfold String.ltb. intros H ->.
  destruct (String.leb_total b b) as [T|T]; unfold String.leb in T;
    destruct (b ?= b)%string eqn:E; try discriminate.
  all: pose proof (String.compare_antisym b b) as A; rewrite E in A; discriminate.
Qed.

(** ** The builtin [sorted]: permutation, order, stability, uniqueness *)

Lemma StronglySorted_app {A : Type} (R : A -> A -> Prop) (l1 l2 : list A) :
  StronglySorted R l1 -> StronglySorted R l2 ->
  (forall a b, In a l1 -> In b l2 -> R a b) ->
  StronglySorted R (l1 ++ l2)%list.
Proof.
  induction l1 as [|x l1 IH]; simpl; intros S1 S2 H; [exact S2|].
  apply StronglySorted_inv in S1; destruct S1 as [S1 F1].
  constructor.
  - apply IH; auto.
  - apply Forall_app; split; [exact F1|].
    apply Forall_forall; intros b Hb; apply H; auto.
Qed.

Lemma StronglySorted_rev {A : Type} (R : A -> A -> Prop) (l : list A) :
  StronglySorted R l -> StronglySorted (fun a b => R b a) (rev l).
Proof.
  induction 1 as [|x l S IH F]; simpl; [constructor|].
  apply StronglySorted_app; [exact IH | repeat constructor |].
  intros a b Ha [<-|[]]. rewrite Forall_forall in F.
  apply F. now apply in_rev.
Qed.

Section SortFacts.

Variable key : Post.t -> string.

Lemma insert_perm (x : Post.t) (l : list Post.t) : Permutation (x :: l) (insert key x l).
Proof.
  induction l as [|y l IH]; simpl; [reflexivity|].
  destruct (key y <? key x)%string; [|reflexivity].
  rewrite perm_swap. now constructor.
Qed.

Lemma sort_perm (l : list Post.t) : Permutation l (sort key l).
Proof.
  induction l as [|x l IH]; simpl; [reflexivity|].
  rewrite <- insert_perm. now constructor.
Qed.

Lemma insert_ascending (x : Post.t) (l : list Post.t) :
  ascending key l -> ascending key (insert key x l).
Proof.
  unfold ascending. induction l as [|y l IH]; simpl; intros S.
  - repeat constructor.
  - apply StronglySorted_inv in S; destruct S as [S F].
    destruct (key y <? key x)%string eqn:E.
    + constructor; [now apply IH|].
      apply (Permutation_Forall (insert_perm x l)).
      constructor; [now apply ltb_leb | exact F].
    + apply ltb_false_leb in E.
      constructor; [now constructor|].
      constructor; [exact E|].
      revert F; apply Forall_impl; intros z Hz; eapply leb_trans; eassumption.
Qed.

Lemma sort_ascending (l : list Post.t) : ascending key (sort key l).
Proof.
  induction l as [|x l IH]; simpl; [constructor | now apply insert_ascending].
Qed.

Lemma insert_filter (k : string) (x : Post.t) (l : list Post.t) :
  filter (fun p => (key p =? k)%string) (insert key x l)
  = filter (fun p => (key p =? k)%string) (x :: l).
Proof.
  induction l as [|y l IH]; [reflexivity|].
  cbn [insert]. destruct (key y <? key x)%string eqn:E; [|reflexivity].
  cbn [filter] in *. rewrite IH.
  apply ltb_neq in E.
  destruct (String.eqb_spec (key y) k), (String.eqb_spec (key x) k);
    try reflexivity; congruence.
Qed.

Lemma sort_stable (l : list Post.t) : stable key l (sort key l).
Proof.
  intros k. induction l as [|x l IH]; [reflexivity|].
  cbn [sort]. rewrite insert_filter. cbn [filter]. now rewrite IH.
Qed.

(** What [sorted] returns. *)
Lemma sorted_sorted_by (reverse : bool) (l : list Post.t) :
  sorted_by key reverse l (sorted key reverse l).
Proof.
  unfold sorted_by, sorted; destruct reverse; repeat split.
  - rewrite <- Permutation_rev, <- sort_perm. apply Permutation_rev.
  - unfold descending.
    apply (StronglySorted_rev (fun a b => (key a <=? key b)%string = true)).
    apply sort_ascending.
  - intros k. rewrite filter_rev, sort_stable, filter_rev. apply rev_involutive.
  - apply sort_perm.
  - apply sort_ascending.
  - apply sort_stable.
Qed.

(** Two stable arrangements of the same input that are sorted the same way
    are the same list: the sorting algorithm does not matter. *)
Lemma sorted_stable_unique (R : Post.t -> Post.t -> Prop) (l1 l2 : list Post.t) :
  (forall a b, R a b -> R b a -> key a = key b) ->
  StronglySorted R l1 -> StronglySorted R l2 ->
  (forall k, filter (fun p => (key p =? k)%string) l1
             = filter (fun p => (key p =? k)%string) l2) ->
  l1 = l2.
Proof.
  intros anti. revert l2.
  induction l1 as [|a l1 IH]; intros l2 S1 S2 E.
  - destruct l2 as [|b l2]; [reflexivity|].
    specialize (E (key b)); cbn [filter] in E.
    rewrite String.eqb_refl in E; discriminate.
  - destruct l2 as [|b l2].
    + specialize (E (key a)); cbn [filter] in E.
      rewrite String.eqb_refl in E; discriminate.
    + apply StronglySorted_inv in S1; destruct S1 as [S1 F1].
      apply StronglySorted_inv in S2; destruct S2 as [S2 F2].
      assert (K : key a = key b).
      { destruct (string_dec (key a) (key b)) as [|N]; [assumption|].
        assert (Ia : In a l2).
        { pose proof (E (key a)) as Ea; cbn [filter] in Ea.
          rewrite String.eqb_refl in Ea.
          destruct (String.eqb_spec (key b) (key a)) as [|_]; [congruence|].
          assert (I : In a (filter (fun p => (key p =? key a)%string) l2))
            by (rewrite <- Ea; now left).
          now apply filter_In in I. }
        assert (Ib : In b l1).
        { pose proof (E (key b)) as Eb; cbn [filter] in Eb.
          rewrite String.eqb_refl in Eb.
          destruct (String.eqb_spec (key a) (key b)) as [|_]; [congruence|].
          assert (I : In b (filter (fun p => (key p =? key b)%string) l1))
            by (rewrite Eb; now left).
          now apply filter_In in I. }
        rewrite Forall_forall in F1, F2. apply anti; auto. }
      assert (Hab : a = b).
      { specialize (E (key a)); cbn [filter] in E.
        rewrite <- K, String.eqb_refl in E. congruence. }
      subst b. f_equal. apply IH; auto.
      intros k. specialize (E k); cbn [filter] in E.
      destruct (key a =? k)%string; congruence.
Qed.

Lemma stable_sorted_unique (reverse : bool) (l out : list Post.t) :
  sorted_by key reverse l out -> out = sorted key reverse l.
Proof.
  intros (_ & S & St).
  destruct (sorted_sorted_by reverse l) as (_ & S' & St').
  destruct reverse.
  - apply (sorted_stable_unique (fun a b => (key b <=? key a)%string = true)); auto.
    + intros a b H1 H2. now apply String.leb_antisym.
    + intros k. now rewrite St, St'.
  - apply (sorted_stable_unique (fun a b => (key a <=? key b)%string = true)); auto.
    + intros a b H1 H2. now apply String.leb_antisym.
    + intros k. now rewrite St, St'.
Qed.

End SortFacts.


(** ** Values, post equality and the list builtins *)

Lemma truthy_true_iff (v : option string) :
  truthy v = true <-> exists s, v = Some s /\ s <> "".
Proof.
  destruct v as [[|c s]|]; simpl; split; try discriminate; try reflexivity.
  - intros (s' & E & N). injection E as E. now destruct N.
  - intros _; eexists; split; [reflexivity | discriminate].
  - intros (s' & E & _); discriminate.
Qed.

Lemma truthy_false_iff (v : option string) : truthy v = false <-> falsy v.
Proof.
  unfold falsy; destruct v as [[|c s]|]; simpl; split; auto; try discriminate.
  intros [H|H]; discriminate.
Qed.

Lemma value_truthy_false_iff (v : Value) : value_truthy v = false <-> value_falsy v.
Proof.
  unfold value_falsy. destruct v as [|[|]|n|[|c s]|[|x l]]; simpl; split;
    try discriminate; auto 6;
    try (intros [H|[H|[H|[H|H]]]]; discriminate H).
  - intros H. apply negb_false_iff, Z.eqb_eq in H. subst. auto.
  - intros [H|[H|[H|[H|H]]]]; try discriminate H. now injection H as ->.
Qed.

Lemma value_equal_refl : forall v, value_equal v v = true.
Proof.
  fix IH 1. intros [|b|n|s|l]; simpl.
  - reflexivity.
  - now destruct b.
  - apply Z.eqb_refl.
  - apply String.eqb_refl.
  - induction l as [|x l IHl]; [reflexivity|]. now rewrite IH, IHl.
Qed.

Lemma value_equal_str_r (v : Value) (s : string) :
  value_equal v (VStr s) = true -> v = VStr s.
Proof.
  destruct v as [|b|n|s'|l]; simpl; try discriminate.
  intros H. apply String.eqb_eq in H. now subst.
Qed.

Lemma value_equal_str_l (v : Value) (s : string) :
  value_equal (VStr s) v = true -> v = VStr s.
Proof.
  destruct v as [|b|n|s'|l]; simpl; try discriminate.
  intros H. apply String.eqb_eq in H. now subst.
Qed.

Lemma is_str_text (v : Value) : is_str v = true -> v = VStr (text v).
Proof. destruct v; simpl; try discriminate; reflexivity. Qed.

Lemma post_eqb_refl (p : Post.t) : Post.eqb p p = true.
Proof. unfold Post.eqb. now rewrite Z.eqb_refl, !value_equal_refl. Qed.

Lemma post_eqb_id (p q : Post.t) : Post.eqb p q = true -> Post.id p = Post.id q.
Proof.
  unfold Post.eqb. rewrite !andb_true_iff. intros [[H _] _]. now apply Z.eqb_eq.
Qed.

(** Two equal posts are the same record as soon as the fields of one of
    them are strings. *)
Lemma post_eqb_str_r (p q : Post.t) :
  is_str (Post.title q) = true -> is_str (Post.content q) = true ->
  Post.eqb p q = true -> p = q.
Proof.
  destruct p as [i t c], q as [i' t' c']; unfold Post.eqb; simpl.
  intros Ht Hc. rewrite (is_str_text _ Ht), (is_str_text _ Hc).
  rewrite !andb_true_iff, Z.eqb_eq. intros [[-> H1] H2].
  now rewrite (value_equal_str_r _ _ H1), (value_equal_str_r _ _ H2).
Qed.

Lemma post_eqb_str_l (p q : Post.t) :
  is_str (Post.title p) = true -> is_str (Post.content p) = true ->
  Post.eqb p q = true -> p = q.
Proof.
  destruct p as [i t c], q as [i' t' c']; unfold Post.eqb; simpl.
  intros Ht Hc. rewrite (is_str_text _ Ht), (is_str_text _ Hc).
  rewrite !andb_true_iff, Z.eqb_eq. intros [[-> H1] H2].
  now rewrite (value_equal_str_l _ _ H1), (value_equal_str_l _ _ H2).
Qed.

Lemma list_in_In (x : Post.t) (l : list Post.t) : In x l -> list_in x l = true.
Proof.
  induction l as [|y l IH]; simpl; [tauto|]. intros [->|H].
  - now rewrite post_eqb_refl.
  - rewrite IH by assumption. apply orb_true_r.
Qed.

Lemma list_in_str (x : Post.t) (l : list Post.t) :
  is_str (Post.title x) = true -> is_str (Post.content x) = true ->
  list_in x l = true -> In x l.
Proof.
  intros Ht Hc. induction l as [|y l IH]; simpl; [discriminate|].
  intros H. apply orb_true_iff in H. destruct H as [H|H]; [left | right; auto].
  now apply post_eqb_str_r.
Qed.

Lemma find_first_id (post_id : Z) (l : list Post.t) :
  Forall (fun q => Post.id q <> post_id) l
  \/ exists l1 p l2, first_with_id post_id l l1 p l2.
Proof.
  induction l as [|x l [IH|(l1 & p & l2 & E & Hp & F)]].
  - left; constructor.
  - destruct (Z.eq_dec (Post.id x) post_id) as [Hx|Hx].
    + right; exists [], x, l; repeat split; auto.
    + left; now constructor.
  - right. destruct (Z.eq_dec (Post.id x) post_id) as [Hx|Hx].
    + exists [], x, l; repeat split; auto.
    + exists (x :: l1), p, l2; repeat split; auto.
      now rewrite E.
Qed.

Lemma has_id_iff (post_id : Z) (l : list Post.t) :
  has_id post_id l <-> ~ Forall (fun q => Post.id q <> post_id) l.
Proof.
  split.
  - intros (p & I & E) F. rewrite Forall_forall in F. exact (F p I E).
  - intros N. destruct (find_first_id post_id l) as [F|(l1 & p & l2 & E & Hp & _)];
      [contradiction|].
    exists p; split; [rewrite E; apply in_elt | exact Hp].
Qed.

Lemma first_with_id_has_id (post_id : Z) (l l1 : list Post.t) (p : Post.t) (l2 : list Post.t) :
  first_with_id post_id l l1 p l2 -> has_id post_id l.
Proof. intros (E & Hp & _). exists p; split; [rewrite E; apply in_elt | exact Hp]. Qed.

(** [l.remove(post)] for the first post of a given id removes that very
    element: an equal dict further up would carry the same id. *)
Lemma list_remove_first_with_id (post_id : Z) (l l1 : list Post.t) (p : Post.t)
    (l2 : list Post.t) :
  first_with_id post_id l l1 p l2 -> list_remove p l = (l1 ++ l2)%list.
Proof.
  intros (-> & Hp & F). induction F as [|x l1 Hx F IH]; simpl.
  - now rewrite post_eqb_refl.
  - destruct (Post.eqb x p) eqn:E; [|now rewrite IH].
    apply post_eqb_id in E; congruence.
Qed.

Lemma list_update_middle (f : Post.t -> Post.t) (l1 : list Post.t) (p : Post.t)
    (l2 : list Post.t) :
  list_update (length l1) f (l1 ++ p :: l2) = (l1 ++ f p :: l2)%list.
Proof. induction l1 as [|x l1 IH]; simpl; [reflexivity | now rewrite IH]. Qed.

(** ** The loops of [delete_post] and [update_post] *)

Lemma delete_loop_not_found (post_id : Z) (todo s : list Post.t) :
  Forall (fun q => Post.id q <> post_id) todo ->
  run (delete_loop post_id todo) s
  = (response (JError ("Post with id (" ++ str post_id ++ ") do not exist.")) 404, s).
Proof.
  induction 1 as [|x todo Hx F IH]; simpl; [reflexivity|].
  apply Z.eqb_neq in Hx. now rewrite Hx.
Qed.

Lemma delete_loop_found (post_id : Z) (todo l1 : list Post.t) (p : Post.t)
    (l2 s : list Post.t) :
  first_with_id post_id todo l1 p l2 ->
  run (delete_loop post_id todo) s
  = (response (JSuccess ("Post with id (" ++ str post_id ++ ") has been deleted successfully."))
       200,
     list_remove p s).
Proof.
  intros (-> & Hp & F). induction F as [|x l1 Hx F IH]; simpl.
  - apply Z.eqb_eq in Hp. now rewrite Hp.
  - apply Z.eqb_neq in Hx. now rewrite Hx.
Qed.

Lemma update_loop_not_found (new_title new_content : Value) (post_id : Z)
    (i : nat) (todo s : list Post.t) :
  Forall (fun q => Post.id q <> post_id) todo ->
  run (update_loop new_title new_content post_id i todo) s
  = (response (JError ("Post with id (" ++ str post_id ++ ") do not exist.")) 404, s).
Proof.
  intros F; revert i; induction F as [|x todo Hx F IH]; intros i; simpl; [reflexivity|].
  apply Z.eqb_neq in Hx. rewrite Hx. apply IH.
Qed.

Lemma update_loop_no_change (post_id : Z) (i : nat) (todo l1 : list Post.t)
    (p : Post.t) (l2 s : list Post.t) (new_title new_content : Value) :
  first_with_id post_id todo l1 p l2 ->
  value_truthy new_title = false -> value_truthy new_content = false ->
  run (update_loop new_title new_content post_id i todo) s
  = (response (JError "Bad request: Nothing was changed") 400, s).
Proof.
  intros (-> & Hp & F) Ht Hc; revert i.
  induction F as [|x l1 Hx F IH]; intros i; simpl.
  - apply Z.eqb_eq in Hp. now rewrite Hp, Ht, Hc.
  - apply Z.eqb_neq in Hx. rewrite Hx. apply IH.
Qed.

Lemma update_loop_found (post_id : Z) (i : nat) (todo l1 : list Post.t)
    (p : Post.t) (l2 pre : list Post.t) (new_title new_content : Value) :
  first_with_id post_id todo l1 p l2 ->
  length pre = i ->
  value_truthy new_title || value_truthy new_content = true ->
  run (update_loop new_title new_content post_id i todo) (pre ++ todo)
  = (response
       (JMessage (changed_fields new_title new_content
                  ++ " of post (" ++ str post_id ++ ") was updated."))
       200,
     (pre ++ l1 ++ updated new_title new_content p :: l2)%list).
Proof.
  intros (-> & Hp & F) Hi Hne; revert i pre Hi.
  induction F as [|x l1 Hx F IH]; intros i pre Hi.
  - cbn [update_loop app]. apply Z.eqb_eq in Hp. rewrite Hp. subst i.
    unfold changed_fields, updated, run, bind, modify, ret.
    destruct (value_truthy new_title) eqn:Ht, (value_truthy new_content) eqn:Hc;
      try discriminate; cbn [negb andb];
      rewrite ?list_update_middle; reflexivity.
  - cbn [update_loop app]. apply Z.eqb_neq in Hx. rewrite Hx.
    specialize (IH (S i) (pre ++ [x])%list).
    rewrite <- !app_assoc in IH. cbn [app] in IH. apply IH.
    rewrite length_app; simpl; lia.
Qed.


(** ** The loop of [search_post] *)

Section SearchFacts.

Variable lower : string -> string.
Variables title content : option string.

Lemma hitb_iff (query : option string) (field : string) :
  hitb lower query field = true <-> hit lower query field.
Proof.
  unfold hitb, hit. rewrite andb_true_iff, truthy_true_iff, contains_spec. split.
  - intros [(q & -> & N) C]. now exists q.
  - intros (q & -> & N & C). split; [now exists q | exact C].
Qed.

Lemma matches_iff (p : Post.t) :
  matches lower title content p = true
  <-> hit lower title (text (Post.title p)) \/ hit lower content (text (Post.content p)).
Proof. unfold matches. now rewrite orb_true_iff, !hitb_iff. Qed.

(** The loop body raises exactly on a post with a field that the query
    looks at and that is not a string; else it is [search_step_str]. *)
Lemma search_step_total (acc : list Post.t) (x : Post.t) :
  search_step lower title content acc x
  = if searchable title content x
    then Some (search_step_str lower title content acc x)
    else None.
Proof.
  unfold search_step, search_step_str, searchable, hitb, get_title, get_content.
  destruct x as [i t c]; cbn [Post.title Post.content].
  destruct (truthy title), (truthy content); cbn [negb orb andb];
    destruct t; cbn [value_lower is_str text andb]; try reflexivity;
    destruct c; cbn [value_lower is_str text andb]; try reflexivity.
  all: now destruct (contains _ _).
Qed.

Lemma search_loop_total (l acc : list Post.t) :
  search_loop lower title content l acc
  = if forallb (searchable title content) l
    then Some (fold_left (search_step_str lower title content) l acc)
    else None.
Proof.
  revert acc. induction l as [|x l IH]; intros acc; cbn [search_loop forallb fold_left].
  - reflexivity.
  - rewrite search_step_total. destruct (searchable title content x); cbn [andb].
    + apply IH.
    + reflexivity.
Qed.

Lemma string_fields_searchable (l : list Post.t) :
  string_fields l -> forallb (searchable title content) l = true.
Proof.
  unfold string_fields, string_titles, string_contents.
  intros [Ht Hc]. apply forallb_forall. intros p Hp.
  rewrite Forall_forall in Ht, Hc. unfold searchable.
  rewrite (Ht p Hp), (Hc p Hp). now rewrite !orb_true_r.
Qed.


Lemma search_step_eq (acc : list Post.t) (x : Post.t) :
  search_step_str lower title content acc x
  = if hitb lower title (text (Post.title x)) then (acc ++ [x])%list
    else if hitb lower content (text (Post.content x)) && negb (list_in x acc)
         then (acc ++ [x])%list else acc.
Proof.
  unfold search_step_str.
  assert (I : list_in x (acc ++ [x]) = true)
    by (apply list_in_In, in_app_iff; right; now left).
  destruct (hitb lower title (text (Post.title x))),
    (hitb lower content (text (Post.content x)));
    cbn [andb]; rewrite ?I; cbn [negb]; reflexivity.
Qed.

Lemma search_step_In (acc : list Post.t) (x p : Post.t) :
  is_str (Post.title x) = true -> is_str (Post.content x) = true ->
  In p (search_step_str lower title content acc x)
  <-> In p acc \/ (p = x /\ matches lower title content x = true).
Proof.
  intros St Sc. rewrite search_step_eq. unfold matches.
  destruct (hitb lower title (text (Post.title x))); cbn [orb].
  - rewrite in_app_iff; simpl. intuition.
  - destruct (hitb lower content (text (Post.content x))); cbn [andb].
    + destruct (list_in x acc) eqn:E; cbn [negb].
      * apply (list_in_str x acc St Sc) in E. intuition (subst; auto).
      * rewrite in_app_iff; simpl. intuition.
    + intuition discriminate.
Qed.

Lemma search_fold_In (l acc : list Post.t) (p : Post.t) :
  string_fields l ->
  In p (fold_left (search_step_str lower title content) l acc)
  <-> In p acc \/ (In p l /\ matches lower title content p = true).
Proof.
  unfold string_fields, string_titles, string_contents.
  intros [Ht Hc]. revert acc; induction Ht as [|x l Hx Ht IH]; intros acc; simpl; [tauto|].
  inversion Hc as [|? ? Hx' Hc']; subst.
  rewrite (IH Hc'), (search_step_In acc x p Hx Hx'). intuition (subst; auto).
Qed.


Lemma search_fold_title_only (l acc : list Post.t) :
  truthy content = false ->
  fold_left (search_step_str lower title content) l acc
  = (acc ++ filter (fun p => hitb lower title (text (Post.title p))) l)%list.
Proof.
  intros Hc. revert acc. induction l as [|x l IH]; intros acc; cbn [fold_left filter].
  - now rewrite app_nil_r.
  - rewrite IH, search_step_eq. unfold hitb at 2. rewrite Hc. cbn [andb].
    destruct (hitb lower title (text (Post.title x)));
      [now rewrite <- app_assoc | reflexivity].
Qed.

End SearchFacts.

(** ** Create Post *)

(** C1. Creating a post with non-empty (truthy) title and content gives the
    new post the id (number of posts before) + 1, appends it at the end of
    the registry and returns it with status 201; the registry grows by
    exactly one post. *)
Theorem add_post_creates (data : object) (registry : list Post.t) :
  value_truthy (field data "title") = true ->
  value_truthy (field data "content") = true ->
  let new_post :=
    Post.mk (Z.of_nat (length registry) + 1) (field data "title") (field data "content") in
  run (add_post data) registry
  = (response (JPost new_post) 201, (registry ++ [new_post])%list)
  /\ length (snd (run (add_post data) registry)) = S (length registry).
Proof.
  intros Ht Hc new_post.
  assert (E : run (add_post data) registry
              = (response (JPost new_post) 201, (registry ++ [new_post])%list)).
  { unfold add_post, run. rewrite Ht, Hc. reflexivity. }
  split; [exact E|].
  rewrite E. cbn [snd]. rewrite length_app. simpl. lia.
Qed.

Lemma add_post_creates_witness :
  run (add_post (json [("title", VStr "Third post"); ("content", VStr "More text")])) POSTS
  = (response (JPost (Post.mk 3 (VStr "Third post") (VStr "More text"))) 201,
     (POSTS ++ [Post.mk 3 (VStr "Third post") (VStr "More text")])%list)
  /\ length (snd (run (add_post (json [("title", VStr "Third post");
                                       ("content", VStr "More text")]))
                   POSTS)) = 3%nat.
Proof.
  apply (add_post_creates (json [("title", VStr "Third post"); ("content", VStr "More text")])
           POSTS).
  - reflexivity.
  - reflexivity.
Defined.

(** C7. Create Post answers with the missing-field error and status 400
    exactly when title or content is absent, empty or otherwise falsy in
    the body, and then the registry is left as it was. *)
Theorem add_post_missing_field (data : object) (registry : list Post.t) :
  let title := field data "title" in
  let content := field data "content" in
  (value_falsy title \/ value_falsy content ->
   run (add_post data) registry
   = (response (JError "Please fill out required fields") 400, registry))
  /\ (status (fst (run (add_post data) registry)) = 400 ->
      value_falsy title \/ value_falsy content).
Proof.
  intros title content. unfold add_post, run. fold title content.
  rewrite <- !value_truthy_false_iff.
  destruct (value_truthy title), (value_truthy content); cbn [negb orb]; split;
    try (intros [H|H]; discriminate H); auto; try reflexivity.
  all: unfold bind, read, modify, ret; cbn [fst status]; discriminate.
Qed.

Lemma add_post_missing_field_witness :
  run (add_post (json [("title", VStr ""); ("content", VStr "text")])) POSTS
  = (response (JError "Please fill out required fields") 400, POSTS)
  /\ run (add_post (json [("title", VStr "Only a title")])) POSTS
     = (response (JError "Please fill out required fields") 400, POSTS).
Proof.
  split.
  - apply (proj1 (add_post_missing_field
                    (json [("title", VStr ""); ("content", VStr "text")]) POSTS)).
    left; right; right; right; left; reflexivity.
  - apply (proj1 (add_post_missing_field (json [("title", VStr "Only a title")]) POSTS)).
    right; left; reflexivity.
Defined.

(** ** Delete Post *)

(** C4. If no post of the registry has the id, Delete Post answers 404 with
    a message that includes the id and leaves the registry as it was; else
    it removes the first post with that id, and nothing else, and answers
    200 with a message that includes the id. *)
Theorem delete_post_spec (post_id : Z) (registry : list Post.t) :
  (~ has_id post_id registry ->
   exists msg,
     run (delete_post post_id) registry = (response (JError msg) 404, registry)
     /\ substring_of (str post_id) msg)
  /\ (has_id post_id registry ->
      exists l1 p l2 msg,
        first_with_id post_id registry l1 p l2
        /\ run (delete_post post_id) registry
           = (response (JSuccess msg) 200, (l1 ++ l2)%list)
        /\ substring_of (str post_id) msg).
Proof.
  unfold delete_post, run, bind, read.
  destruct (find_first_id post_id registry) as [F|(l1 & p & l2 & Hf)]; split.
  - intros _. eexists; split.
    + apply (delete_loop_not_found post_id registry registry F).
    + eexists _, _; reflexivity.
  - intros H; apply has_id_iff in H; contradiction.
  - intros N; destruct N. eapply first_with_id_has_id; eassumption.
  - intros _. exists l1, p, l2; eexists; repeat split; try apply Hf.
    + rewrite <- (list_remove_first_with_id post_id registry l1 p l2 Hf).
      apply (delete_loop_found post_id registry l1 p l2 registry Hf).
    + eexists _, _; reflexivity.
Qed.

Lemma delete_post_spec_witness :
  (exists msg,
     run (delete_post 9999) POSTS = (response (JError msg) 404, POSTS)
     /\ substring_of (str 9999) msg)
  /\ (exists l1 p l2 msg,
        first_with_id 1 POSTS l1 p l2
        /\ run (delete_post 1) POSTS = (response (JSuccess msg) 200, (l1 ++ l2)%list)
        /\ substring_of (str 1) msg).
Proof.
  split.
  - apply (proj1 (delete_post_spec 9999 POSTS)).
    intros (p & [<-|[<-|[]]] & E); discriminate E.
  - apply (proj2 (delete_post_spec 1 POSTS)).
    exists (Post.mk 1 (VStr "First post") (VStr "This is the first post.")).
    split; [now left | reflexivity].
Defined.

(** ** Reading handlers *)

(** C9. List Posts and Search Posts leave the registry as it was, whatever
    the query parameters: same posts, same order. *)
Theorem readers_leave_registry (lower : string -> string) (args : dict)
    (registry : list Post.t) :
  snd (run (get_posts lower args) registry) = registry
  /\ snd (run (search_post lower args) registry) = registry.
Proof.
  split.
  - unfold get_posts, run, bind, read, ret.
    match goal with |- snd (match ?o with _ => _ end _) = _ => destruct o end;
      reflexivity.
  - unfold search_post, run, bind, read, ret.
    destruct (negb (truthy (get args "title")) && negb (truthy (get args "content")));
      [reflexivity|].
    destruct (search_loop lower (get args "title") (get args "content") registry []);
      reflexivity.
Qed.

(** ** Ids after a delete *)

(** C8. From the two seed posts, deleting the post with id 1 and then
    creating a valid post gives the new post the id 2, which the surviving
    post already has: ids are not unique in the resulting registry. *)
Theorem id_collision_after_delete_then_create :
  let survivor := Post.mk 2 (VStr "Second post") (VStr "This is the second post.") in
  let new_post := Post.mk 2 (VStr "Third post") (VStr "This is the third post.") in
  let data := json [("title", VStr "Third post");
                    ("content", VStr "This is the third post.")] in
  let registry1 := snd (run (delete_post 1) POSTS) in
  NoDup (map Post.id POSTS)
  /\ registry1 = [survivor]
  /\ run (add_post data) registry1 = (response (JPost new_post) 201, [survivor; new_post])
  /\ Post.id new_post = Post.id survivor
  /\ ~ NoDup (map Post.id (snd (run (add_post data) registry1))).
Proof.
  cbv zeta. repeat split.
  - repeat constructor; simpl; intuition discriminate.
  - intros N. vm_compute in N. inversion N as [|? ? Hin _]; subst.
    apply Hin. now left.
Qed.

(** ** Update Post *)

(** The three outcomes of [update_post]. *)
Lemma update_post_run (post_id : Z) (data : object) (registry : list Post.t) :
  let new_title := field data "title" in
  let new_content := field data "content" in
  (~ has_id post_id registry
   /\ run (update_post post_id data) registry
      = (response (JError ("Post with id (" ++ str post_id ++ ") do not exist.")) 404,
         registry))
  \/ (exists l1 p l2,
        first_with_id post_id registry l1 p l2
        /\ value_truthy new_title = false /\ value_truthy new_content = false
        /\ run (update_post post_id data) registry
           = (response (JError "Bad request: Nothing was changed") 400, registry))
  \/ (exists l1 p l2,
        first_with_id post_id registry l1 p l2
        /\ value_truthy new_title || value_truthy new_content = true
        /\ run (update_post post_id data) registry
           = (response
                (JMessage (changed_fields new_title new_content
                           ++ " of post (" ++ str post_id ++ ") was updated."))
                200,
              (l1 ++ updated new_title new_content p :: l2)%list)).
Proof.
  intros new_title new_content.
  unfold update_post, run, bind, read. fold new_title new_content.
  destruct (find_first_id post_id registry) as [F|(l1 & p & l2 & Hf)].
  - left; split.
    + intros H; apply has_id_iff in H; contradiction.
    + apply (update_loop_not_found new_title new_content post_id 0 registry registry F).
  - right.
    destruct (value_truthy new_title || value_truthy new_content) eqn:E.
    + right; exists l1, p, l2; repeat split; try apply Hf.
      apply (update_loop_found post_id 0 registry l1 p l2 [] new_title new_content Hf
               eq_refl E).
    + apply orb_false_iff in E; destruct E as [Et Ec].
      left; exists l1, p, l2; repeat split; try apply Hf; auto.
      apply (update_loop_no_change post_id 0 registry l1 p l2 registry
               new_title new_content Hf Et Ec).
Qed.

Lemma first_with_id_unique (post_id : Z) (l l1 : list Post.t) (p : Post.t)
    (l2 l1' : list Post.t) (p' : Post.t) (l2' : list Post.t) :
  first_with_id post_id l l1 p l2 -> first_with_id post_id l l1' p' l2' ->
  l1 = l1' /\ p = p' /\ l2 = l2'.
Proof.
  intros (-> & Hp & F) (E & Hp' & F'). revert l1' E F'.
  induction F as [|x l1 Hx F IH]; intros [|y l1'] E F'; simpl in E.
  - injection E as -> ->; auto.
  - injection E as -> _. inversion F'; subst; contradiction.
  - injection E as -> _. contradiction.
  - injection E as -> E. inversion F'; subst.
    destruct (IH l1' E) as (-> & -> & ->); auto.
Qed.

(** C5. When a post with the id exists and the body has a non-empty title
    or content, Update Post overwrites exactly the non-empty fields of the
    first such post, and answers 200 with a message that names the fields
    changed: both, the content alone, or the title alone. *)
Theorem update_post_success (post_id : Z) (data : object) (registry l1 : list Post.t)
    (p : Post.t) (l2 : list Post.t) :
  let new_title := field data "title" in
  let new_content := field data "content" in
  first_with_id post_id registry l1 p l2 ->
  ~ (value_falsy new_title /\ value_falsy new_content) ->
  exists fields p',
    run (update_post post_id data) registry
    = (response (JMessage (fields ++ " of post (" ++ str post_id ++ ") was updated.")) 200,
       (l1 ++ p' :: l2)%list)
    /\ Post.id p' = Post.id p
    /\ (value_truthy new_title = true -> value_truthy new_content = true ->
        fields = "title and content"
        /\ Post.title p' = new_title /\ Post.content p' = new_content)
    /\ (value_falsy new_title -> value_truthy new_content = true ->
        fields = "content"
        /\ Post.title p' = Post.title p /\ Post.content p' = new_content)
    /\ (value_truthy new_title = true -> value_falsy new_content ->
        fields = "title"
        /\ Post.title p' = new_title /\ Post.content p' = Post.content p).
Proof.
  intros new_title new_content Hf Hne.
  destruct (update_post_run post_id data registry)
    as [[N _]|[(? & ? & ? & _ & Et & Ec & _)|(l1' & q & l2' & Hf' & _ & R)]].
  - destruct N. eapply first_with_id_has_id; eassumption.
  - destruct Hne. fold new_title in Et. fold new_content in Ec.
    now rewrite <- !value_truthy_false_iff.
  - destruct (first_with_id_unique _ _ _ _ _ _ _ _ Hf Hf') as (<- & <- & <-).
    fold new_title new_content in R.
    exists (changed_fields new_title new_content), (updated new_title new_content p).
    split; [exact R|]. split; [reflexivity|].
    unfold changed_fields, updated; cbn [Post.title Post.content].
    split; [|split].
    + intros Ht Hc. now rewrite Ht, Hc.
    + intros Ft Hc. apply value_truthy_false_iff in Ft. now rewrite Ft, Hc.
    + intros Ht Fc. apply value_truthy_false_iff in Fc. now rewrite Fc, Ht.
Qed.

Lemma update_post_success_witness :
  exists fields p',
    run (update_post 2 (json [("content", VStr "new")])) POSTS
    = (response (JMessage (fields ++ " of post (" ++ str 2 ++ ") was updated.")) 200,
       ([Post.mk 1 (VStr "First post") (VStr "This is the first post.")] ++ p' :: [])%list)
    /\ fields = "content"
    /\ Post.title p' = VStr "Second post"
    /\ Post.content p' = VStr "new".
Proof.
  destruct (update_post_success 2 (json [("content", VStr "new")]) POSTS
              [Post.mk 1 (VStr "First post") (VStr "This is the first post.")]
              (Post.mk 2 (VStr "Second post") (VStr "This is the second post.")) [])
    as (fields & p' & R & _ & _ & C & _).
  - repeat split. constructor; [discriminate | constructor].
  - intros [_ [H|[H|[H|[H|H]]]]]; discriminate H.
  - exists fields, p'. split; [exact R|].
    apply C; [left; reflexivity | reflexivity].
Defined.

(** C6. Update Post answers with the nothing-changed error (status 400)
    exactly when a post with the id exists and both title and content are
    absent, empty or otherwise falsy in the body, and then the registry is left as it was;
    it answers not-found (status 404) exactly when no post has the id,
    whatever the body. *)
Theorem update_post_errors (post_id : Z) (data : object) (registry : list Post.t) :
  let new_title := field data "title" in
  let new_content := field data "content" in
  let resp := fst (run (update_post post_id data) registry) in
  let registry' := snd (run (update_post post_id data) registry) in
  (status resp = 400 <-> has_id post_id registry /\ value_falsy new_title /\ value_falsy new_content)
  /\ (status resp = 400 ->
      body resp = JError "Bad request: Nothing was changed" /\ registry' = registry)
  /\ (status resp = 404 <-> ~ has_id post_id registry)
  /\ (status resp = 404 ->
      body resp = JError ("Post with id (" ++ str post_id ++ ") do not exist.")
      /\ registry' = registry).
Proof.
  intros new_title new_content resp registry'.
  subst new_title new_content resp registry'.
  rewrite <- !value_truthy_false_iff.
  destruct (update_post_run post_id data registry)
    as [[N R]|[(l1 & p & l2 & Hf & Et & Ec & R)|(l1 & p & l2 & Hf & E & R)]];
    rewrite R; cbn [fst snd status body].
  - repeat split; try discriminate; auto; tauto.
  - pose proof (first_with_id_has_id _ _ _ _ _ Hf) as H.
    repeat split; try discriminate; auto; tauto.
  - pose proof (first_with_id_has_id _ _ _ _ _ Hf) as H.
    repeat split; try discriminate; auto; try tauto.
    intros (_ & Et & Ec). rewrite Et, Ec in E. discriminate.
Qed.

Lemma update_post_errors_witness :
  (body (fst (run (update_post 1 (json [("title", VStr "")])) POSTS))
   = JError "Bad request: Nothing was changed"
   /\ snd (run (update_post 1 (json [("title", VStr "")])) POSTS) = POSTS)
  /\ (body (fst (run (update_post 7 (json [("title", VStr "")])) POSTS))
      = JError ("Post with id (" ++ str 7 ++ ") do not exist.")
      /\ snd (run (update_post 7 (json [("title", VStr "")])) POSTS) = POSTS).
Proof.
  split.
  - apply (proj1 (proj2 (update_post_errors 1 (json [("title", VStr "")]) POSTS))).
    reflexivity.
  - apply (proj2 (proj2 (proj2 (update_post_errors 7 (json [("title", VStr "")]) POSTS)))).
    reflexivity.
Defined.

(** C10. Update Post never changes the length of the registry, the order of
    the posts or the id of any post; every post other than the first one
    with the id is left as it was, and that one keeps its id. *)
Theorem update_post_frame (post_id : Z) (data : object) (registry : list Post.t) :
  let registry' := snd (run (update_post post_id data) registry) in
  length registry' = length registry
  /\ map Post.id registry' = map Post.id registry
  /\ (registry' = registry
      \/ exists l1 p l2 p',
           first_with_id post_id registry l1 p l2
           /\ registry' = (l1 ++ p' :: l2)%list
           /\ Post.id p' = Post.id p).
Proof.
  intros registry'; subst registry'.
  destruct (update_post_run post_id data registry)
    as [[N R]|[(l1 & p & l2 & Hf & Et & Ec & R)|(l1 & p & l2 & Hf & E & R)]];
    rewrite R; cbn [snd]; auto.
  pose proof Hf as (-> & _ & _).
  rewrite !length_app, !map_app. cbn [length map updated Post.id].
  repeat split.
  right. exists l1, p, l2, (updated (field data "title") (field data "content") p).
  repeat split; apply Hf.
Qed.


(** ** List Posts *)

Lemma value_eqb_iff (v : option string) (s : string) :
  value_eqb v s = true <-> v = Some s.
Proof.
  destruct v as [s'|]; simpl; [|split; discriminate].
  rewrite String.eqb_eq. split; [now intros -> | now intros [= ->]].
Qed.

Lemma reverse_iff (lower : string -> string) (args : dict) :
  lower "asc" <> "desc" ->
  (lower (get_default args "direction" "asc") =? "desc")%string = true
  <-> is_desc lower (get args "direction").
Proof.
  intros Hasc. unfold get_default, get, is_desc. rewrite String.eqb_eq.
  destruct (args "direction") as [d|]; split.
  - intros H; now exists d.
  - now intros (d' & [= <-] & H).
  - intros H; contradiction.
  - intros (d' & H & _); discriminate.
Qed.

Lemma sorted_listing (lower : string -> string) (key : Post.t -> string) (args : dict)
    (registry : list Post.t) :
  lower "asc" <> "desc" ->
  listing lower key (get args "direction") registry
    (sorted key
       (if (lower (get_default args "direction" "asc") =? "desc")%string then true else false)
       registry).
Proof.
  intros Hasc. pose proof (reverse_iff lower args Hasc) as R.
  destruct (lower (get_default args "direction" "asc") =? "desc")%string.
  - destruct (sorted_sorted_by key true registry) as (P & S & St).
    repeat split; auto. intros N; destruct N; now apply R.
  - destruct (sorted_sorted_by key false registry) as (P & S & St).
    repeat split; auto. intros D; apply R in D; discriminate.
Qed.

(** Keys that agree on the posts of a list sort it the same way. *)
Lemma insert_ext (key key' : Post.t -> string) (x : Post.t) (l : list Post.t) :
  key x = key' x -> (forall p, In p l -> key p = key' p) ->
  insert key x l = insert key' x l.
Proof.
  intros Hx. induction l as [|y l IH]; intros H; simpl; [reflexivity|].
  rewrite <- Hx, <- (H y) by now left.
  rewrite IH by (intros p Hp; apply H; now right). reflexivity.
Qed.

Lemma sort_ext (key key' : Post.t -> string) (l : list Post.t) :
  (forall p, In p l -> key p = key' p) -> sort key l = sort key' l.
Proof.
  induction l as [|x l IH]; intros H; simpl; [reflexivity|].
  rewrite IH by (intros p Hp; apply H; now right).
  apply insert_ext; [apply H; now left|].
  intros p Hp. apply H. right.
  apply (Permutation_in p (Permutation_sym (sort_perm key' l)) Hp).
Qed.

Lemma sorted_ext (key key' : Post.t -> string) (reverse : bool) (l : list Post.t) :
  (forall p, In p l -> key p = key' p) -> sorted key reverse l = sorted key' reverse l.
Proof.
  intros H. unfold sorted. destruct reverse; [|now apply sort_ext].
  f_equal. apply sort_ext. intros p Hp. apply H. now apply in_rev.
Qed.

(** [sorted] with the key [v.lower()] of a stored value: it raises exactly
    when some value is not a string. *)
Lemma sorted_with_lower (lower : string -> string) (f : Post.t -> Value) (reverse : bool)
    (l : list Post.t) :
  sorted_with (fun p => value_lower lower (f p)) reverse l
  = if forallb (fun p => is_str (f p)) l
    then Some (sorted (fun p => lower (text (f p))) reverse l)
    else None.
Proof.
  unfold sorted_with.
  assert (E : forallb (returns (fun p => value_lower lower (f p))) l
              = forallb (fun p => is_str (f p)) l).
  { induction l as [|x l IH]; [reflexivity|]. cbn [forallb]. rewrite IH.
    unfold returns. now destruct (f x). }
  rewrite E. destruct (forallb (fun p => is_str (f p)) l) eqn:F; [|reflexivity].
  f_equal. apply sorted_ext. intros p Hp.
  rewrite forallb_forall in F. specialize (F p Hp).
  unfold key_or_empty. now destruct (f p).
Qed.

Lemma forallb_is_str (f : Post.t -> Value) (l : list Post.t) :
  forallb (fun p => is_str (f p)) l = true <-> Forall (fun p => is_str (f p) = true) l.
Proof. now rewrite forallb_forall, Forall_forall. Qed.

(** What [get_posts] returns, by the value of [sort]. *)
Lemma get_posts_run (lower : string -> string) (args : dict) (registry : list Post.t) :
  let reverse := (lower (get_default args "direction" "asc") =? "desc")%string in
  run (get_posts lower args) registry
  = (if value_eqb (get args "sort") "title" then
       if forallb (fun p => is_str (Post.title p)) registry
       then response (JPosts (sorted (fun p => lower (text (Post.title p))) reverse registry))
              200
       else server_error
     else if value_eqb (get args "sort") "content" then
       if forallb (fun p => is_str (Post.content p)) registry
       then response
              (JPosts (sorted (fun p => lower (text (Post.content p))) reverse registry)) 200
       else server_error
     else response (JPosts registry) 200,
     registry).
Proof.
  intros reverse. unfold get_posts, run, bind, read, ret, get_title, get_content.
  replace (if (lower (get_default args "direction" "asc") =? "desc")%string
           then true else false) with reverse
    by (subst reverse; now destruct (_ =? _)%string).
  destruct (value_eqb (get args "sort") "title").
  - rewrite (sorted_with_lower lower Post.title).
    now destruct (forallb (fun p => is_str (Post.title p)) registry).
  - destruct (value_eqb (get args "sort") "content"); [|reflexivity].
    rewrite (sorted_with_lower lower Post.content).
    now destruct (forallb (fun p => is_str (Post.content p)) registry).
Qed.

(** C2, as stated, fails on a registry that holds a title that is not a
    string: after a create with the title 123, the listing sorted by title
    is answered with status 500. *)
Lemma get_posts_contract_fails_on_number :
  ~ get_posts_contract ascii_lower (items [("sort", "title")]) numeric_registry.
Proof. intros (posts & R & _). vm_compute in R. discriminate R. Qed.

(** C2, amended. List Posts keeps its contract (status 200; with
    sort=title the registry sorted stably by lower-cased title, descending
    when direction is 'desc' up to case and ascending when direction is
    absent or anything else; likewise with sort=content; with any other
    sort, or none, the registry in insertion order) exactly when the field
    sorted on is a string in every post; when it is not, the answer has
    status 500. *)
Theorem get_posts_listing (lower : string -> string) (args : dict)
    (registry : list Post.t) :
  lower "asc" <> "desc" ->
  let sort_tag := get args "sort" in
  let sortable :=
    (sort_tag = Some "title" -> string_titles registry)
    /\ (sort_tag = Some "content" -> string_contents registry) in
  (sortable -> get_posts_contract lower args registry)
  /\ (~ sortable -> fst (run (get_posts lower args) registry) = server_error).
Proof.
  intros Hasc sort_tag sortable. subst sort_tag sortable.
  unfold get_posts_contract, string_titles, string_contents.
  rewrite get_posts_run. cbn [fst].
  pose proof (value_eqb_iff (get args "sort") "title") as Et.
  pose proof (value_eqb_iff (get args "sort") "content") as Ec.
  pose proof (forallb_is_str Post.title registry) as Ft.
  pose proof (forallb_is_str Post.content registry) as Fc.
  pose proof (reverse_iff lower args Hasc) as R.
  destruct (value_eqb (get args "sort") "title").
  - rewrite (proj1 Et eq_refl) in *.
    destruct (forallb (fun p => is_str (Post.title p)) registry); split.
    + intros _. eexists. split; [reflexivity|]. split; [|split].
      * intros _.
        pose proof (sorted_listing lower (fun p => lower (text (Post.title p))) args
                      registry Hasc) as L.
        now destruct (lower (get_default args "direction" "asc") =? "desc")%string.
      * discriminate.
      * intros N; now destruct N.
    + intros N; destruct N. split; [intros _; now apply Ft | discriminate].
    + intros [S _]. apply Ft in S; [discriminate | reflexivity].
    + reflexivity.
  - destruct (value_eqb (get args "sort") "content").
    + rewrite (proj1 Ec eq_refl) in *.
      destruct (forallb (fun p => is_str (Post.content p)) registry); split.
      * intros _. eexists. split; [reflexivity|]. split; [|split].
        -- discriminate.
        -- intros _.
           pose proof (sorted_listing lower (fun p => lower (text (Post.content p))) args
                         registry Hasc) as L.
           now destruct (lower (get_default args "direction" "asc") =? "desc")%string.
        -- intros _ N; now destruct N.
      * intros N; destruct N. split; [discriminate | intros _; now apply Fc].
      * intros [_ S]. apply Fc in S; [discriminate | reflexivity].
      * reflexivity.
    + split.
      * intros _. eexists. split; [reflexivity|]. split; [|split].
        -- intros H; apply Et in H; discriminate.
        -- intros H; apply Ec in H; discriminate.
        -- reflexivity.
      * intros N; destruct N. split; intros H; [apply Et in H | apply Ec in H];
          discriminate.
Qed.

Lemma get_posts_listing_witness :
  get_posts_contract ascii_lower (items [("sort", "title"); ("direction", "Desc")]) POSTS
  /\ fst (run (get_posts ascii_lower (items [("sort", "title")])) numeric_registry)
     = server_error.
Proof.
  split.
  - apply (proj1 (get_posts_listing ascii_lower
                    (items [("sort", "title"); ("direction", "Desc")]) POSTS
                    ltac:(discriminate))).
    split; [intros _; repeat constructor | discriminate].
  - apply (proj2 (get_posts_listing ascii_lower (items [("sort", "title")])
                    numeric_registry ltac:(discriminate))).
    intros [S _]. specialize (S eq_refl). unfold string_titles in S.
    rewrite Forall_forall in S.
    specialize (S (Post.mk 3 (VInt 123) (VStr "text")) ltac:(vm_compute; auto)).
    discriminate S.
Defined.

(** ** Search Posts *)

Lemma search_post_run (lower : string -> string) (args : dict) (registry : list Post.t) :
  run (search_post lower args) registry
  = (if truthy (get args "title") || truthy (get args "content") then
       if forallb (searchable (get args "title") (get args "content")) registry
       then response
              (JPosts (fold_left
                         (search_step_str lower (get args "title") (get args "content"))
                         registry []))
              200
       else server_error
     else response (JError "Please provide title or content query") 400,
     registry).
Proof.
  unfold search_post, run.
  destruct (truthy (get args "title")), (truthy (get args "content")); cbn [negb andb orb];
    try reflexivity;
    unfold bind, read, ret; rewrite search_loop_total;
    now destruct (forallb (searchable (get args "title") (get args "content")) registry).
Qed.

Lemma occurrences_app (p : Post.t) (l1 l2 : list Post.t) :
  occurrences p (l1 ++ l2) = (occurrences p l1 + occurrences p l2)%nat.
Proof. unfold occurrences. now rewrite filter_app, length_app. Qed.

Lemma occurrences_cons (p x : Post.t) (l : list Post.t) :
  occurrences p (x :: l) = ((if Post.eqb x p then 1 else 0) + occurrences p l)%nat.
Proof. unfold occurrences; cbn [filter]. now destruct (Post.eqb x p). Qed.

Lemma list_in_occurrences (p : Post.t) (l : list Post.t) :
  list_in p l = negb (occurrences p l =? 0)%nat.
Proof.
  unfold occurrences. induction l as [|y l IH]; [reflexivity|].
  cbn [list_in filter]. destruct (Post.eqb y p); [reflexivity | exact IH].
Qed.




(** * Further properties of the handlers *)

(** ** What each handler returns *)

Lemma add_post_run (data : object) (registry : list Post.t) :
  run (add_post data) registry
  = if value_truthy (field data "title") && value_truthy (field data "content")
    then (response (JPost (created data registry)) 201,
          (registry ++ [created data registry])%list)
    else (response (JError "Please fill out required fields") 400, registry).
Proof.
  unfold add_post, run.
  destruct (value_truthy (field data "title")), (value_truthy (field data "content")); reflexivity.
Qed.

Lemma delete_post_not_found (post_id : Z) (registry : list Post.t) :
  Forall (fun q => Post.id q <> post_id) registry ->
  run (delete_post post_id) registry
  = (response (JError ("Post with id (" ++ str post_id ++ ") do not exist.")) 404, registry).
Proof. intros F. apply (delete_loop_not_found post_id registry registry F). Qed.

Lemma delete_post_found (post_id : Z) (registry l1 : list Post.t) (p : Post.t)
    (l2 : list Post.t) :
  first_with_id post_id registry l1 p l2 ->
  run (delete_post post_id) registry
  = (response (JSuccess ("Post with id (" ++ str post_id ++ ") has been deleted successfully."))
       200,
     (l1 ++ l2)%list).
Proof.
  intros Hf. rewrite <- (list_remove_first_with_id post_id registry l1 p l2 Hf).
  apply (delete_loop_found post_id registry l1 p l2 registry Hf).
Qed.

Lemma not_has_id_Forall (post_id : Z) (l : list Post.t) :
  ~ has_id post_id l -> Forall (fun q => Post.id q <> post_id) l.
Proof.
  intros N. destruct (find_first_id post_id l) as [F|(l1 & p & l2 & Hf)]; [exact F|].
  destruct N. eapply first_with_id_has_id; eassumption.
Qed.

(** ** Sequential ids *)

Lemma ids_sequential_snoc (l : list Post.t) (p : Post.t) :
  ids_sequential (l ++ [p]) <->
  ids_sequential l /\ Post.id p = Z.of_nat (length l) + 1.
Proof.
  unfold ids_sequential.
  rewrite map_app, length_app. cbn [map length].
  replace (length l + 1)%nat with (S (length l)) by lia.
  rewrite seq_S, map_app. cbn [map].
  replace (Z.of_nat (1 + length l)) with (Z.of_nat (length l) + 1) by lia.
  split.
  - intros E. apply app_inj_tail in E. exact E.
  - intros [-> ->]. reflexivity.
Qed.

Lemma ids_sequential_has_id (k : Z) (l : list Post.t) :
  ids_sequential l -> (has_id k l <-> 1 <= k <= Z.of_nat (length l)).
Proof.
  intros S. unfold has_id. split.
  - intros (p & I & <-).
    assert (J : In (Post.id p) (map Post.id l)) by now apply in_map.
    rewrite S in J. apply in_map_iff in J. destruct J as (n & <- & J).
    apply in_seq in J. lia.
  - intros B.
    assert (J : In k (map Post.id l)).
    { rewrite S. apply in_map_iff. exists (Z.to_nat k). split; [lia|].
      apply in_seq. lia. }
    apply in_map_iff in J. destruct J as (p & E & I). now exists p.
Qed.

Lemma update_post_keeps_ids (post_id : Z) (data : object) (registry : list Post.t) :
  length (snd (run (update_post post_id data) registry)) = length registry
  /\ map Post.id (snd (run (update_post post_id data) registry)) = map Post.id registry.
Proof.
  destruct (update_post_run post_id data registry)
    as [[N R]|[(l1 & p & l2 & Hf & Et & Ec & R)|(l1 & p & l2 & Hf & E & R)]];
    rewrite R; cbn [snd]; auto.
  destruct Hf as (-> & _ & _).
  rewrite !length_app, !map_app. cbn [length map updated Post.id]. auto.
Qed.

Lemma add_post_keeps_sequential (data : object) (registry : list Post.t) :
  ids_sequential registry -> ids_sequential (snd (run (add_post data) registry)).
Proof.
  intros S. rewrite add_post_run.
  destruct (value_truthy (field data "title") && value_truthy (field data "content")); cbn [snd];
    [|exact S].
  apply ids_sequential_snoc. split; [exact S | reflexivity].
Qed.

(** X1. Creating and updating keep the ids 1, 2, ..., n: on a registry
    whose ids are sequential, the registry after [add_post] (whatever the
    body) and after [update_post] (whatever the id and body) has sequential
    ids again. *)
Theorem sequential_ids_kept_by_create_and_update (post_id : Z) (data : object)
    (registry : list Post.t) :
  ids_sequential registry ->
  ids_sequential (snd (run (add_post data) registry))
  /\ ids_sequential (snd (run (update_post post_id data) registry)).
Proof.
  intros S. split; [now apply add_post_keeps_sequential|].
  destruct (update_post_keeps_ids post_id data registry) as [L I].
  unfold ids_sequential. rewrite L, I. exact S.
Qed.

Lemma sequential_ids_kept_by_create_and_update_witness :
  ids_sequential (snd (run (add_post (json [("title", VStr "Third"); ("content", VStr "text")])) POSTS))
  /\ ids_sequential (snd (run (update_post 2 (json [("title", VStr "Renamed")])) POSTS)).
Proof.
  apply (sequential_ids_kept_by_create_and_update 2
           (json [("title", VStr "Third"); ("content", VStr "text")]) POSTS).
  reflexivity.
Defined.

(** X2. On a non-empty registry with sequential ids, deleting the post
    whose id is the number of posts removes exactly the last post and
    answers 200; a valid create after that gives the new post that same
    id again, and the ids are sequential once more: the id is reused
    without a collision. *)
Theorem delete_last_keeps_sequential_ids (data : object) (registry : list Post.t) :
  ids_sequential registry -> registry <> [] ->
  value_truthy (field data "title") = true ->
  value_truthy (field data "content") = true ->
  let n := Z.of_nat (length registry) in
  let registry1 := snd (run (delete_post n) registry) in
  let new_post := Post.mk n (field data "title") (field data "content") in
  registry1 = removelast registry
  /\ status (fst (run (delete_post n) registry)) = 200
  /\ ids_sequential registry1
  /\ run (add_post data) registry1
     = (response (JPost new_post) 201, (removelast registry ++ [new_post])%list)
  /\ ids_sequential (snd (run (add_post data) registry1)).
Proof.
  intros S Ne Ht Hc n registry1 new_post.
  destruct (exists_last Ne) as (l & p & E). subst registry.
  pose proof (proj1 (ids_sequential_snoc l p) S) as [Sl Hp].
  assert (Hf : first_with_id n (l ++ [p]) l p []).
  { subst n. rewrite length_app. cbn [length]. repeat split.
    - lia.
    - apply Forall_forall. intros q Hq Eq.
      assert (H : has_id (Post.id q) l) by (exists q; auto).
      apply (ids_sequential_has_id _ _ Sl) in H. lia. }
  assert (E1 : registry1 = l).
  { subst registry1. rewrite (delete_post_found _ _ _ _ _ Hf). cbn [snd].
    apply app_nil_r. }
  rewrite removelast_last, E1.
  assert (En : Z.of_nat (length l) + 1 = n)
    by (subst n; rewrite length_app; cbn [length]; lia).
  assert (R : run (add_post data) l
              = (response (JPost new_post) 201, (l ++ [new_post])%list)).
  { rewrite add_post_run, Ht, Hc. cbn [andb]. unfold created. now rewrite En. }
  repeat split; auto.
  - now rewrite (delete_post_found _ _ _ _ _ Hf).
  - rewrite R. cbn [snd]. apply ids_sequential_snoc. split; [exact Sl|].
    cbn [Post.id new_post]. lia.
Qed.

Lemma delete_last_keeps_sequential_ids_witness :
  snd (run (delete_post 2) POSTS) = removelast POSTS
  /\ status (fst (run (delete_post 2) POSTS)) = 200
  /\ ids_sequential (snd (run (delete_post 2) POSTS))
  /\ run (add_post (json [("title", VStr "Again"); ("content", VStr "text")]))
       (snd (run (delete_post 2) POSTS))
     = (response (JPost (Post.mk 2 (VStr "Again") (VStr "text"))) 201,
        (removelast POSTS ++ [Post.mk 2 (VStr "Again") (VStr "text")])%list)
  /\ ids_sequential
       (snd (run (add_post (json [("title", VStr "Again"); ("content", VStr "text")]))
               (snd (run (delete_post 2) POSTS)))).
Proof.
  apply (delete_last_keeps_sequential_ids
           (json [("title", VStr "Again"); ("content", VStr "text")]) POSTS).
  - reflexivity.
  - discriminate.
  - reflexivity.
  - reflexivity.
Defined.

(** ** Create and delete together *)

(** X3. When no post of the registry has the id (number of posts) + 1,
    creating a valid post and then deleting the id it was given restores the
    registry, and the delete answers 200. *)
Theorem create_then_delete_restores (data : object) (registry : list Post.t) :
  ~ has_id (Z.of_nat (length registry) + 1) registry ->
  value_truthy (field data "title") = true -> value_truthy (field data "content") = true ->
  let registry1 := snd (run (add_post data) registry) in
  snd (run (delete_post (Z.of_nat (length registry) + 1)) registry1) = registry
  /\ status (fst (run (delete_post (Z.of_nat (length registry) + 1)) registry1)) = 200.
Proof.
  intros N Ht Hc registry1. subst registry1.
  rewrite add_post_run, Ht, Hc. cbn [andb snd].
  assert (Hf : first_with_id (Z.of_nat (length registry) + 1)
                 (registry ++ [created data registry]) registry
                 (created data registry) []).
  { repeat split. now apply not_has_id_Forall. }
  rewrite (delete_post_found _ _ _ _ _ Hf). cbn [fst snd status].
  split; [apply app_nil_r | reflexivity].
Qed.

Lemma create_then_delete_restores_witness :
  snd (run (delete_post 3)
         (snd (run (add_post (json [("title", VStr "Third"); ("content", VStr "text")])) POSTS)))
  = POSTS
  /\ status (fst (run (delete_post 3)
                    (snd (run (add_post (json [("title", VStr "Third"); ("content", VStr "text")]))
                            POSTS)))) = 200.
Proof.
  apply (create_then_delete_restores (json [("title", VStr "Third"); ("content", VStr "text")]) POSTS).
  - intros (p & [<-|[<-|[]]] & E); discriminate E.
  - reflexivity.
  - reflexivity.
Defined.

(** X4. When some post already has the id (number of posts) + 1, creating a
    valid post and then deleting by the id it was given removes the older
    post with that id; the post just created stays, at the end. *)
Theorem create_then_delete_removes_older (data : object) (registry l1 : list Post.t)
    (p : Post.t) (l2 : list Post.t) :
  first_with_id (Z.of_nat (length registry) + 1) registry l1 p l2 ->
  value_truthy (field data "title") = true -> value_truthy (field data "content") = true ->
  snd (run (delete_post (Z.of_nat (length registry) + 1))
         (snd (run (add_post data) registry)))
  = (l1 ++ l2 ++ [created data registry])%list.
Proof.
  intros Hf Ht Hc. rewrite add_post_run, Ht, Hc. cbn [andb snd].
  assert (Hf' : first_with_id (Z.of_nat (length registry) + 1)
                  (registry ++ [created data registry]) l1 p
                  (l2 ++ [created data registry])).
  { destruct Hf as (E & Hp & F). repeat split; auto.
    rewrite E at 1. now rewrite <- app_assoc. }
  now rewrite (delete_post_found _ _ _ _ _ Hf').
Qed.

Lemma create_then_delete_removes_older_witness :
  snd (run (delete_post 2)
         (snd (run (add_post (json [("title", VStr "Third"); ("content", VStr "text")]))
                 [Post.mk 2 (VStr "Second post") (VStr "This is the second post.")])))
  = ([] ++ [] ++ [created (json [("title", VStr "Third"); ("content", VStr "text")])
                    [Post.mk 2 (VStr "Second post") (VStr "This is the second post.")]])%list.
Proof.
  apply (create_then_delete_removes_older (json [("title", VStr "Third"); ("content", VStr "text")])
           [Post.mk 2 (VStr "Second post") (VStr "This is the second post.")] []
           (Post.mk 2 (VStr "Second post") (VStr "This is the second post.")) []).
  - repeat split. constructor.
  - reflexivity.
  - reflexivity.
Defined.

(** X5. On a registry with sequential ids, deleting any post but the last
    and then creating a valid post gives the new post the id of the post
    that was last, which is still there: the ids are no longer unique. *)
Theorem delete_then_create_collides (k : Z) (data : object) (registry : list Post.t) :
  ids_sequential registry ->
  has_id k registry -> k <> Z.of_nat (length registry) ->
  value_truthy (field data "title") = true -> value_truthy (field data "content") = true ->
  let registry1 := snd (run (delete_post k) registry) in
  let new_post := created data registry1 in
  run (add_post data) registry1
  = (response (JPost new_post) 201, (registry1 ++ [new_post])%list)
  /\ Post.id new_post = Z.of_nat (length registry)
  /\ (exists older, In older registry1 /\ Post.id older = Post.id new_post)
  /\ ~ NoDup (map Post.id (snd (run (add_post data) registry1))).
Proof.
  intros S Hk Nk Ht Hc registry1 new_post.
  destruct (find_first_id k registry) as [F|(l1 & p & l2 & Hf)];
    [apply has_id_iff in Hk; contradiction|].
  assert (E1 : registry1 = (l1 ++ l2)%list)
    by (subst registry1; now rewrite (delete_post_found _ _ _ _ _ Hf)).
  assert (R : run (add_post data) registry1
              = (response (JPost new_post) 201, (registry1 ++ [new_post])%list))
    by (rewrite add_post_run, Ht, Hc; reflexivity).
  pose proof Hf as (E & Hp & Fl1).
  assert (Hid : Post.id new_post = Z.of_nat (length registry)).
  { subst new_post. cbn [created Post.id]. rewrite E1, E, !length_app.
    cbn [length]. lia. }
  assert (Hold : exists older, In older registry1 /\ Post.id older = Post.id new_post).
  { assert (H : has_id (Z.of_nat (length registry)) registry).
    { apply (ids_sequential_has_id _ _ S).
      rewrite E, length_app; cbn [length]; lia. }
    destruct H as (q & Iq & Eq). exists q. split; [|congruence].
    rewrite E1. rewrite E in Iq. apply in_app_iff in Iq. apply in_app_iff.
    destruct Iq as [Iq|[<-|Iq]]; auto. congruence. }
  repeat split; auto.
  rewrite R. cbn [snd]. rewrite map_app. cbn [map]. intros ND.
  apply NoDup_remove_2 in ND. apply ND. rewrite app_nil_r.
  destruct Hold as (q & Iq & Eq). rewrite <- Eq. now apply in_map.
Qed.

Lemma delete_then_create_collides_witness :
  ~ NoDup (map Post.id
             (snd (run (add_post (json [("title", VStr "Third"); ("content", VStr "text")]))
                     (snd (run (delete_post 1) POSTS))))).
Proof.
  apply (delete_then_create_collides 1 (json [("title", VStr "Third"); ("content", VStr "text")])
           POSTS).
  - reflexivity.
  - exists (Post.mk 1 (VStr "First post") (VStr "This is the first post.")). split; [now left | reflexivity].
  - discriminate.
  - reflexivity.
  - reflexivity.
Defined.

(** X6. When the ids of the registry are unique, deleting the same id a
    second time answers 404 and changes nothing more. *)
Theorem delete_twice_not_found (k : Z) (registry : list Post.t) :
  NoDup (map Post.id registry) ->
  let registry1 := snd (run (delete_post k) registry) in
  run (delete_post k) registry1
  = (response (JError ("Post with id (" ++ str k ++ ") do not exist.")) 404, registry1).
Proof.
  intros ND registry1. apply delete_post_not_found. subst registry1.
  destruct (find_first_id k registry) as [F|(l1 & p & l2 & Hf)].
  - now rewrite (delete_post_not_found _ _ F).
  - rewrite (delete_post_found _ _ _ _ _ Hf). cbn [snd].
    destruct Hf as (-> & Hp & F). apply Forall_app. split; [exact F|].
    rewrite map_app in ND. cbn [map] in ND. apply NoDup_remove_2 in ND.
    apply Forall_forall. intros q Hq E. apply ND.
    apply in_app_iff. right. rewrite Hp, <- E. now apply in_map.
Qed.

Lemma delete_twice_not_found_witness :
  run (delete_post 1) (snd (run (delete_post 1) POSTS))
  = (response (JError ("Post with id (" ++ str 1 ++ ") do not exist.")) 404,
     snd (run (delete_post 1) POSTS)).
Proof.
  apply (delete_twice_not_found 1 POSTS).
  repeat constructor; simpl; intuition discriminate.
Defined.

(** ** Update Post, repeated *)

Lemma updated_idempotent (new_title new_content : Value) (p : Post.t) :
  updated new_title new_content (updated new_title new_content p)
  = updated new_title new_content p.
Proof.
  unfold updated; cbn [Post.id Post.title Post.content].
  now destruct (value_truthy new_title), (value_truthy new_content).
Qed.

(** X7. Sending the same update twice gives the same response and leaves
    the registry as the first update left it. *)
Theorem update_post_idempotent (post_id : Z) (data : object) (registry : list Post.t) :
  run (update_post post_id data) (snd (run (update_post post_id data) registry))
  = (fst (run (update_post post_id data) registry),
     snd (run (update_post post_id data) registry)).
Proof.
  destruct (update_post_run post_id data registry)
    as [[N R]|[(l1 & p & l2 & Hf & Et & Ec & R)|(l1 & p & l2 & Hf & E & R)]];
    rewrite R; cbn [fst snd]; try exact R.
  assert (Hf' : first_with_id post_id
                  (l1 ++ updated (field data "title") (field data "content") p :: l2)
                  l1 (updated (field data "title") (field data "content") p) l2).
  { destruct Hf as (_ & Hp & F). repeat split; auto. }
  pose proof (update_loop_found post_id 0 _ l1 _ l2 [] (field data "title")
                (field data "content") Hf' eq_refl E) as R'.
  cbn [app] in R'. rewrite updated_idempotent in R'. exact R'.
Qed.

(** ** Non-empty titles and contents *)

(** X8. No handler stores an empty (falsy) title or content: on a registry
    whose posts all have a non-empty (truthy) title and content, the registry after a
    create, after a delete and after an update has that property again. *)
Theorem nonempty_fields_kept (post_id : Z) (data : object) (registry : list Post.t) :
  nonempty_fields registry ->
  nonempty_fields (snd (run (add_post data) registry))
  /\ nonempty_fields (snd (run (delete_post post_id) registry))
  /\ nonempty_fields (snd (run (update_post post_id data) registry)).
Proof.
  unfold nonempty_fields. intros W. split; [|split].
  - rewrite add_post_run.
    destruct (value_truthy (field data "title")) eqn:Ht,
      (value_truthy (field data "content")) eqn:Hc;
      cbn [andb snd]; auto.
    apply Forall_app. split; [exact W|]. constructor; [|constructor].
    cbn [created Post.title Post.content]. split; assumption.
  - destruct (find_first_id post_id registry) as [F|(l1 & p & l2 & Hf)].
    + now rewrite (delete_post_not_found _ _ F).
    + rewrite (delete_post_found _ _ _ _ _ Hf). cbn [snd].
      destruct Hf as (-> & _ & _). apply Forall_app in W. destruct W as [W1 W2].
      apply Forall_app. split; [exact W1 | now inversion W2].
  - destruct (update_post_run post_id data registry)
      as [[N R]|[(l1 & p & l2 & Hf & Et & Ec & R)|(l1 & p & l2 & Hf & E & R)]];
      rewrite R; cbn [snd]; auto.
    destruct Hf as (-> & _ & _). apply Forall_app in W. destruct W as [W1 W2].
    inversion W2 as [|? ? [Wt Wc] W3]; subst.
    apply Forall_app. split; [exact W1|]. constructor; [|exact W3].
    unfold updated; cbn [Post.title Post.content].
    destruct (value_truthy (field data "title")) eqn:Ht,
      (value_truthy (field data "content")) eqn:Hc;
      split; auto.
Qed.

Lemma nonempty_fields_kept_witness :
  nonempty_fields (snd (run (add_post (json [("title", VStr "Third"); ("content", VStr "text")])) POSTS))
  /\ nonempty_fields (snd (run (delete_post 1) POSTS))
  /\ nonempty_fields
       (snd (run (update_post 1 (json [("title", VStr "Third"); ("content", VStr "text")])) POSTS)).
Proof.
  apply (nonempty_fields_kept 1 (json [("title", VStr "Third"); ("content", VStr "text")]) POSTS).
  repeat constructor; discriminate.
Defined.


(** ** Search Posts: title alone, multiplicity, order *)

Section SearchMore.

Variable lower : string -> string.
Variables title content : option string.

Lemma searchable_title_only (l : list Post.t) :
  truthy title = true -> truthy content = false ->
  forallb (searchable title content) l = forallb (fun p => is_str (Post.title p)) l.
Proof.
  intros Ht Hc. induction l as [|x l IH]; [reflexivity|]. cbn [forallb].
  rewrite IH. unfold searchable. rewrite Ht, Hc. cbn [negb orb].
  now rewrite andb_true_r.
Qed.

Lemma searchable_strings (l : list Post.t) :
  truthy title = true -> truthy content = true ->
  forallb (searchable title content) l = true -> string_fields l.
Proof.
  intros Ht Hc H. rewrite forallb_forall in H.
  split; apply Forall_forall; intros p Hp; specialize (H p Hp);
    unfold searchable in H; rewrite Ht, Hc in H; cbn [negb orb] in H;
    apply andb_true_iff in H; tauto.
Qed.

Lemma occurrences_snoc (p x : Post.t) (l : list Post.t) :
  occurrences p (l ++ [x]) = (occurrences p l + if Post.eqb x p then 1 else 0)%nat.
Proof.
  rewrite occurrences_app. unfold occurrences; cbn [filter].
  now destruct (Post.eqb x p).
Qed.

Lemma occurrences_step (p x : Post.t) (acc : list Post.t) :
  is_str (Post.title x) = true -> is_str (Post.content x) = true ->
  occurrences p (search_step_str lower title content acc x)
  = (occurrences p acc
     + if Post.eqb x p then
         if hitb lower title (text (Post.title p)) then 1
         else if hitb lower content (text (Post.content p)) && negb (list_in p acc)
              then 1 else 0
       else 0)%nat.
Proof.
  intros St Sc. rewrite search_step_eq.
  destruct (Post.eqb x p) eqn:E.
  - pose proof (post_eqb_str_l x p St Sc E) as <-.
    destruct (hitb lower title (text (Post.title x)));
      [|destruct (hitb lower content (text (Post.content x)) && negb (list_in x acc))];
      rewrite ?occurrences_snoc, ?post_eqb_refl; lia.
  - destruct (hitb lower title (text (Post.title x)));
      [|destruct (hitb lower content (text (Post.content x)) && negb (list_in x acc))];
      rewrite ?occurrences_snoc, ?E; lia.
Qed.

Lemma occurrences_fold_title (p : Post.t) (l acc : list Post.t) :
  string_fields l ->
  hitb lower title (text (Post.title p)) = true ->
  occurrences p (fold_left (search_step_str lower title content) l acc)
  = (occurrences p acc + occurrences p l)%nat.
Proof.
  unfold string_fields, string_titles, string_contents.
  intros [St Sc] Ht. revert acc.
  induction St as [|x l Hx St IH]; intros acc; cbn [fold_left].
  - unfold occurrences at 3; simpl; lia.
  - inversion Sc as [|? ? Hx' Sc']; subst.
    rewrite (IH Sc'), (occurrences_step p x acc Hx Hx'), Ht, occurrences_cons.
    destruct (Post.eqb x p); lia.
Qed.

Lemma occurrences_fold_content (p : Post.t) (l acc : list Post.t) :
  string_fields l ->
  hitb lower title (text (Post.title p)) = false ->
  occurrences p (fold_left (search_step_str lower title content) l acc)
  = if hitb lower content (text (Post.content p)) && negb (list_in p acc) && list_in p l
    then 1%nat else occurrences p acc.
Proof.
  unfold string_fields, string_titles, string_contents.
  intros [St Sc] Ht. revert acc.
  induction St as [|x l Hx St IH]; intros acc; cbn [fold_left].
  - cbn [list_in]. now rewrite andb_false_r.
  - inversion Sc as [|? ? Hx' Sc']; subst.
    rewrite (IH Sc'), (occurrences_step p x acc Hx Hx'), Ht. cbn [list_in].
    rewrite !list_in_occurrences, (occurrences_step p x acc Hx Hx'), Ht,
      !list_in_occurrences.
    destruct (Post.eqb x p) eqn:E, (hitb lower content (text (Post.content p)));
      cbn [andb orb negb]; rewrite ?Nat.add_0_r;
      destruct (occurrences p acc) as [|n] eqn:O; cbn [Nat.eqb negb andb orb];
      rewrite ?andb_false_r; cbn [Nat.add Nat.eqb negb andb orb]; try reflexivity;
      try (destruct (negb (occurrences p l =? 0)%nat); reflexivity).
    all: replace (S n + 1)%nat with (S (S n)) by lia; cbn [Nat.eqb negb andb]; lia.
Qed.

End SearchMore.

(** X10. A search on the title alone (content query absent or empty): when
    every title of the registry is a string, whatever the contents are, it
    answers 200 with exactly the posts whose title contains the query up to
    case, in registry order, equal posts included as often as they occur;
    when some title is not a string it answers with status 500. *)
Theorem search_by_title_exact (lower : string -> string) (args : dict)
    (registry : list Post.t) :
  falsy (get args "content") -> ~ falsy (get args "title") ->
  (string_titles registry ->
   fst (run (search_post lower args) registry)
   = response
       (JPosts (filter (fun p => hitb lower (get args "title") (text (Post.title p)))
                  registry))
       200)
  /\ (~ string_titles registry ->
      fst (run (search_post lower args) registry) = server_error).
Proof.
  intros Fc Nt. apply truthy_false_iff in Fc.
  destruct (truthy (get args "title")) eqn:Ht;
    [|destruct Nt; now apply truthy_false_iff].
  rewrite search_post_run, Ht. cbn [orb fst].
  rewrite (searchable_title_only _ _ registry Ht Fc).
  pose proof (forallb_is_str Post.title registry) as F.
  destruct (forallb (fun p => is_str (Post.title p)) registry); split.
  - intros _. now rewrite (search_fold_title_only lower _ _ registry [] Fc).
  - intros N; destruct N. now apply F.
  - intros S. apply F in S. discriminate.
  - reflexivity.
Qed.

Lemma search_by_title_exact_witness :
  fst (run (search_post ascii_lower (items [("title", "SECOND")])) twin_registry)
  = response
      (JPosts (filter (fun p => hitb ascii_lower (Some "SECOND") (text (Post.title p)))
                 twin_registry))
      200
  /\ fst (run (search_post ascii_lower (items [("title", "SECOND")])) numeric_registry)
     = server_error.
Proof.
  split.
  - apply (proj1 (search_by_title_exact ascii_lower (items [("title", "SECOND")])
                    twin_registry ltac:(left; reflexivity)
                    ltac:(intros [H|H]; discriminate H))).
    repeat constructor.
  - apply (proj2 (search_by_title_exact ascii_lower (items [("title", "SECOND")])
                    numeric_registry ltac:(left; reflexivity)
                    ltac:(intros [H|H]; discriminate H))).
    unfold string_titles. intros S. rewrite Forall_forall in S.
    specialize (S (Post.mk 3 (VInt 123) (VStr "text")) ltac:(vm_compute; auto)).
    discriminate S.
Defined.

(** X11. How often a search reports a post, on every registry whose titles
    and contents are strings: a post whose title matches is reported as
    many times as it occurs in the registry; a post that matches on the
    content only is reported once, however many equal posts the registry
    holds; any other post is not reported. *)
Theorem search_multiplicity (lower : string -> string) (args : dict)
    (registry : list Post.t) :
  let title := get args "title" in
  let content := get args "content" in
  string_fields registry ->
  ~ (falsy title /\ falsy content) ->
  exists out,
    fst (run (search_post lower args) registry) = response (JPosts out) 200
    /\ forall p,
         occurrences p out
         = if hitb lower title (text (Post.title p)) then occurrences p registry
           else if hitb lower content (text (Post.content p)) && list_in p registry
                then 1%nat
                else 0%nat.
Proof.
  intros title content S N.
  rewrite search_post_run. fold title content.
  rewrite (string_fields_searchable title content registry S).
  destruct (truthy title || truthy content) eqn:E.
  - eexists. split; [reflexivity|]. intros p.
    destruct (hitb lower title (text (Post.title p))) eqn:Ht.
    + now rewrite (occurrences_fold_title lower title content p registry [] S Ht).
    + rewrite (occurrences_fold_content lower title content p registry [] S Ht).
      cbn [list_in negb]. now rewrite andb_true_r.
  - apply orb_false_iff in E. destruct E as [Et Ec].
    destruct N. split; now apply truthy_false_iff.
Qed.

Lemma search_multiplicity_witness :
  exists out,
    fst (run (search_post ascii_lower (items [("content", "second")])) twin_registry)
    = response (JPosts out) 200
    /\ occurrences (Post.mk 2 (VStr "Second post") (VStr "This is the second post.")) out
       = 1%nat
    /\ occurrences (Post.mk 2 (VStr "Second post") (VStr "This is the second post."))
         twin_registry = 2%nat.
Proof.
  destruct (search_multiplicity ascii_lower (items [("content", "second")]) twin_registry)
    as (out & R & O).
  - split; repeat constructor.
  - intros [_ [H|H]]; discriminate H.
  - exists out. split; [exact R|]. split; [|reflexivity].
    rewrite O. reflexivity.
Defined.

(** ** Order of the search results *)

Lemma subseq_snoc_skip (x : Post.t) (l1 l2 : list Post.t) :
  subseq l1 l2 -> subseq l1 (l2 ++ [x]).
Proof. induction 1; simpl; repeat constructor; assumption. Qed.

Lemma subseq_snoc_keep (x : Post.t) (l1 l2 : list Post.t) :
  subseq l1 l2 -> subseq (l1 ++ [x]) (l2 ++ [x]).
Proof. induction 1; simpl; repeat constructor; assumption. Qed.

Lemma search_fold_subseq (lower : string -> string) (title content : option string)
    (l acc pre : list Post.t) :
  subseq acc (filter (matches lower title content) pre) ->
  subseq (fold_left (search_step_str lower title content) l acc)
    (filter (matches lower title content) (pre ++ l)).
Proof.
  revert acc pre. induction l as [|x l IH]; intros acc pre H; cbn [fold_left].
  - now rewrite app_nil_r.
  - replace (pre ++ x :: l)%list with ((pre ++ [x]) ++ l)%list
      by (now rewrite <- app_assoc).
    apply IH. rewrite filter_app, search_step_eq. cbn [filter]. unfold matches at 2.
    destruct (hitb lower title (text (Post.title x))); cbn [orb].
    + now apply subseq_snoc_keep.
    + destruct (hitb lower content (text (Post.content x))); cbn [andb].
      * destruct (list_in x acc); cbn [negb];
          [now apply subseq_snoc_skip | now apply subseq_snoc_keep].
      * now rewrite app_nil_r.
Qed.

(** X12. On any registry the search results come in registry order:
    whenever a search returns a list, that list is the list of matching
    posts of the registry with, possibly, some of them left out; and it
    does return a list when a query is given and the titles and contents
    of the registry are strings. *)
Theorem search_in_registry_order (lower : string -> string) (args : dict)
    (registry : list Post.t) :
  let title := get args "title" in
  let content := get args "content" in
  (forall out,
     fst (run (search_post lower args) registry) = response (JPosts out) 200 ->
     subseq out (filter (matches lower title content) registry))
  /\ (string_fields registry -> ~ (falsy title /\ falsy content) ->
      exists out,
        fst (run (search_post lower args) registry) = response (JPosts out) 200).
Proof.
  intros title content. rewrite search_post_run. fold title content. cbn [fst]. split.
  - intros out R.
    destruct (truthy title || truthy content); [|discriminate R].
    destruct (forallb (searchable title content) registry); [|discriminate R].
    injection R as <-.
    apply (search_fold_subseq lower title content registry [] []). constructor.
  - intros S N. rewrite (string_fields_searchable title content registry S).
    destruct (truthy title || truthy content) eqn:E; [eexists; reflexivity|].
    apply orb_false_iff in E. destruct E as [Et Ec].
    destruct N. split; now apply truthy_false_iff.
Qed.

Lemma search_in_registry_order_witness :
  subseq [Post.mk 2 (VStr "Second post") (VStr "This is the second post.")]
    (filter (matches ascii_lower None (Some "second")) twin_registry)
  /\ exists out,
       fst (run (search_post ascii_lower (items [("content", "second")])) twin_registry)
       = response (JPosts out) 200.
Proof.
  split.
  - apply (proj1 (search_in_registry_order ascii_lower (items [("content", "second")])
                    twin_registry)).
    vm_compute. reflexivity.
  - apply (proj2 (search_in_registry_order ascii_lower (items [("content", "second")])
                    twin_registry)).
    + split; repeat constructor.
    + intros [_ [H|H]]; discriminate H.
Defined.
(** ** List Posts: the two directions, and a registry already in order *)

Section ListingMore.

Variable key : Post.t -> string.

Lemma filter_key_absent (k : string) (l : list Post.t) :
  ~ In k (map key l) -> filter (fun p => (key p =? k)%string) l = [].
Proof.
  induction l as [|x l IH]; [reflexivity|]. cbn [map filter]. intros N.
  destruct (String.eqb_spec (key x) k) as [E|_].
  - destruct N. now left.
  - apply IH. intros I. apply N. now right.
Qed.

Lemma filter_key_short (k : string) (l : list Post.t) :
  NoDup (map key l) -> (length (filter (fun p => (key p =? k)%string) l) <= 1)%nat.
Proof.
  induction l as [|x l IH]; cbn [map filter]; intros ND; [simpl; lia|].
  inversion ND as [|? ? Hx ND']; subst.
  destruct (String.eqb_spec (key x) k) as [E|_]; [|now apply IH].
  rewrite filter_key_absent by (now rewrite <- E). simpl; lia.
Qed.

Lemma rev_short (l : list Post.t) : (length l <= 1)%nat -> rev l = l.
Proof. destruct l as [|x [|y l]]; simpl; intros; [reflexivity | reflexivity | lia]. Qed.

Lemma sorted_reverse_distinct (l : list Post.t) :
  NoDup (map key l) -> sorted key true l = rev (sorted key false l).
Proof.
  intros ND. symmetry. apply stable_sorted_unique. cbn [sorted]. repeat split.
  - rewrite <- Permutation_rev. apply sort_perm.
  - unfold descending.
    apply (StronglySorted_rev (fun a b => (key a <=? key b)%string = true)).
    apply sort_ascending.
  - intros k. rewrite filter_rev, sort_stable. apply rev_short.
    now apply filter_key_short.
Qed.

Lemma sorted_of_sorted (reverse : bool) (l : list Post.t) :
  (if reverse then descending key l else ascending key l) ->
  sorted key reverse l = l.
Proof.
  intros S. symmetry. apply stable_sorted_unique. repeat split; auto.
Qed.

End ListingMore.

(** X13. With sort=title, titles that are strings and lower-cased titles
    that are pairwise distinct, the descending listing is the ascending
    listing reversed. *)
Theorem descending_listing_is_reverse (lower : string -> string) (asc_args desc_args : dict)
    (registry : list Post.t) :
  lower "asc" <> "desc" ->
  get asc_args "sort" = Some "title" -> ~ is_desc lower (get asc_args "direction") ->
  get desc_args "sort" = Some "title" -> is_desc lower (get desc_args "direction") ->
  string_titles registry ->
  NoDup (map (fun p => lower (text (Post.title p))) registry) ->
  exists posts,
    fst (run (get_posts lower asc_args) registry) = response (JPosts posts) 200
    /\ fst (run (get_posts lower desc_args) registry) = response (JPosts (rev posts)) 200.
Proof.
  intros Hasc Sa Da Sd Dd St ND.
  rewrite !get_posts_run, Sa, Sd. cbn [value_eqb fst]. rewrite String.eqb_refl.
  rewrite (proj2 (forallb_is_str Post.title registry) St).
  apply (reverse_iff lower desc_args Hasc) in Dd. rewrite Dd.
  destruct (lower (get_default asc_args "direction" "asc") =? "desc")%string eqn:Ea;
    [destruct Da; now apply (reverse_iff lower asc_args Hasc)|].
  eexists. split; [reflexivity|]. f_equal. f_equal.
  apply (sorted_reverse_distinct (fun p => lower (text (Post.title p))) registry ND).
Qed.

Lemma descending_listing_is_reverse_witness :
  exists posts,
    fst (run (get_posts ascii_lower (items [("sort", "title")])) POSTS)
    = response (JPosts posts) 200
    /\ fst (run (get_posts ascii_lower (items [("sort", "title"); ("direction", "DESC")]))
              POSTS)
       = response (JPosts (rev posts)) 200.
Proof.
  apply (descending_listing_is_reverse ascii_lower (items [("sort", "title")])
           (items [("sort", "title"); ("direction", "DESC")]) POSTS).
  - discriminate.
  - reflexivity.
  - intros (d & H & _); discriminate H.
  - reflexivity.
  - exists "DESC". split; reflexivity.
  - repeat constructor.
  - repeat constructor; simpl; intuition discriminate.
Defined.

(** X14. With sort=title and titles that are strings, a registry that is
    already in the order asked for (ascending, or descending when direction
    is 'desc' up to case, by lower-cased title) is listed as it is. *)
Theorem listing_of_ordered_registry (lower : string -> string) (args : dict)
    (registry : list Post.t) :
  lower "asc" <> "desc" ->
  get args "sort" = Some "title" ->
  string_titles registry ->
  (~ is_desc lower (get args "direction") ->
   ascending (fun p => lower (text (Post.title p))) registry ->
   fst (run (get_posts lower args) registry) = response (JPosts registry) 200)
  /\ (is_desc lower (get args "direction") ->
      descending (fun p => lower (text (Post.title p))) registry ->
      fst (run (get_posts lower args) registry) = response (JPosts registry) 200).
Proof.
  intros Hasc Hs St. rewrite get_posts_run, Hs. cbn [value_eqb fst].
  rewrite String.eqb_refl, (proj2 (forallb_is_str Post.title registry) St).
  pose proof (reverse_iff lower args Hasc) as R.
  destruct (lower (get_default args "direction" "asc") =? "desc")%string; split.
  - intros N; destruct N; now apply R.
  - intros _ S.
    now rewrite (sorted_of_sorted (fun p => lower (text (Post.title p))) true registry S).
  - intros _ S.
    now rewrite (sorted_of_sorted (fun p => lower (text (Post.title p))) false registry S).
  - intros D; apply R in D; discriminate.
Qed.

Lemma listing_of_ordered_registry_witness :
  fst (run (get_posts ascii_lower (items [("sort", "title")])) POSTS)
  = response (JPosts POSTS) 200.
Proof.
  apply (proj1 (listing_of_ordered_registry ascii_lower (items [("sort", "title")]) POSTS
                  ltac:(discriminate) eq_refl ltac:(repeat constructor))).
  - intros (d & H & _); discriminate H.
  - repeat constructor.
Defined.

(** ** Narrowing a search *)

Lemma string_app_assoc (a b c : string) : (a ++ b) ++ c = a ++ b ++ c.
Proof. induction a as [|x a IH]; simpl; [reflexivity | now rewrite IH]. Qed.

Lemma substring_of_trans (a b c : string) :
  substring_of a b -> substring_of b c -> substring_of a c.
Proof.
  intros (u & v & ->) (x & y & ->). exists (x ++ u), (v ++ y).
  now rewrite !string_app_assoc.
Qed.

Lemma hitb_narrow (lower : string -> string) (q1 q2 : string) (f : string) :
  q1 <> "" -> substring_of (lower q1) (lower q2) ->
  hitb lower (Some q2) f = true -> hitb lower (Some q1) f = true.
Proof.
  intros N1 S H. apply hitb_iff in H. apply hitb_iff.
  destruct H as (q & [= <-] & _ & H).
  exists q1. split; [reflexivity|]. split; [exact N1|].
  eapply substring_of_trans; eassumption.
Qed.

(** The posts found by a search that returned, when the title query is
    given. *)
Lemma search_found (lower : string -> string) (q : string) (content : option string)
    (registry : list Post.t) (p : Post.t) :
  q <> "" ->
  forallb (searchable (Some q) content) registry = true ->
  In p (fold_left (search_step_str lower (Some q) content) registry [])
  <-> In p registry /\ matches lower (Some q) content p = true.
Proof.
  intros N F.
  assert (Tq : truthy (Some q) = true) by (destruct q; [contradiction | reflexivity]).
  destruct (truthy content) eqn:Tc.
  - rewrite (search_fold_In lower (Some q) content registry [] p
               (searchable_strings (Some q) content registry Tq Tc F)).
    simpl. tauto.
  - rewrite (search_fold_title_only lower (Some q) content registry [] Tc).
    cbn [app]. rewrite filter_In. unfold matches, hitb at 3. rewrite Tc. cbn [andb].
    now rewrite orb_false_r.
Qed.

(** X15. Lengthening the title query narrows the search: when the
    lower-cased first query occurs in the lower-cased second one and the
    content query is the same, every post found with the second query is
    found with the first. *)
Theorem search_narrowing (lower : string -> string) (args1 args2 : dict)
    (q1 q2 : string) (registry out1 out2 : list Post.t) :
  get args1 "title" = Some q1 -> q1 <> "" ->
  get args2 "title" = Some q2 -> q2 <> "" ->
  get args1 "content" = get args2 "content" ->
  substring_of (lower q1) (lower q2) ->
  fst (run (search_post lower args1) registry) = response (JPosts out1) 200 ->
  fst (run (search_post lower args2) registry) = response (JPosts out2) 200 ->
  incl out2 out1.
Proof.
  intros T1 N1 T2 N2 C S R1 R2.
  rewrite search_post_run in R1, R2. rewrite T1, <- ?C in *.
  rewrite T2 in R2.
  assert (Tq1 : truthy (Some q1) = true) by (destruct q1; [contradiction | reflexivity]).
  assert (Tq2 : truthy (Some q2) = true) by (destruct q2; [contradiction | reflexivity]).
  rewrite Tq1 in R1. rewrite Tq2 in R2. cbn [orb fst] in R1, R2.
  destruct (forallb (searchable (Some q1) (get args1 "content")) registry) eqn:F1;
    [|discriminate R1].
  destruct (forallb (searchable (Some q2) (get args1 "content")) registry) eqn:F2;
    [|discriminate R2].
  injection R1 as <-. injection R2 as <-.
  intros p Hp.
  apply (search_found lower q2 _ registry p N2 F2) in Hp.
  apply (search_found lower q1 _ registry p N1 F1).
  destruct Hp as [I M]. split; [exact I|].
  unfold matches in *. apply orb_true_iff in M. apply orb_true_iff.
  destruct M as [M|M]; [left | now right].
  now apply (hitb_narrow lower q1 q2).
Qed.

Lemma search_narrowing_witness :
  incl [Post.mk 1 (VStr "First post") (VStr "This is the first post.")] POSTS.
Proof.
  apply (search_narrowing ascii_lower (items [("title", "POST")])
           (items [("title", "First Post")]) "POST" "First Post" POSTS POSTS
           [Post.mk 1 (VStr "First post") (VStr "This is the first post.")]).
  - reflexivity.
  - discriminate.
  - reflexivity.
  - discriminate.
  - reflexivity.
  - exists "first ", "". reflexivity.
  - vm_compute. reflexivity.
  - vm_compute. reflexivity.
Defined.

(** ** Update after create *)

(** X16. After a valid create, an update addressed to the id just given
    changes the created post when no older post has that id; when an older
    post has it, the update changes the first such older post and leaves the
    created post as it is. *)
Theorem update_after_create (data data' : object) (registry : list Post.t) :
  value_truthy (field data "title") = true -> value_truthy (field data "content") = true ->
  ~ (value_falsy (field data' "title") /\ value_falsy (field data' "content")) ->
  let new_id := Z.of_nat (length registry) + 1 in
  let new_post := created data registry in
  let registry2 :=
    snd (run (update_post new_id data') (snd (run (add_post data) registry))) in
  (~ has_id new_id registry ->
   registry2
   = (registry ++ [updated (field data' "title") (field data' "content") new_post])%list)
  /\ (forall l1 p l2,
        first_with_id new_id registry l1 p l2 ->
        registry2
        = (l1 ++ updated (field data' "title") (field data' "content") p :: l2 ++ [new_post])%list).
Proof.
  intros Ht Hc N new_id new_post registry2. subst registry2.
  rewrite add_post_run, Ht, Hc. cbn [andb snd]. fold new_post.
  assert (E : value_truthy (field data' "title") || value_truthy (field data' "content") = true).
  { destruct (value_truthy (field data' "title")) eqn:Et, (value_truthy (field data' "content")) eqn:Ec;
      try reflexivity.
    destruct N. split; now apply value_truthy_false_iff. }
  unfold update_post, run, bind, read. split.
  - intros Nh.
    assert (Hf : first_with_id new_id (registry ++ [new_post]) registry new_post [])
      by (repeat split; now apply not_has_id_Forall).
    pose proof (update_loop_found new_id 0 _ _ _ _ [] _ _ Hf eq_refl E) as R.
    cbn [app] in R. unfold run in R. now rewrite R.
  - intros l1 p l2 Hf.
    assert (Hf' : first_with_id new_id (registry ++ [new_post]) l1 p (l2 ++ [new_post])).
    { destruct Hf as (Eq & Hp & F). repeat split; auto.
      rewrite Eq at 1. now rewrite <- app_assoc. }
    pose proof (update_loop_found new_id 0 _ _ _ _ [] _ _ Hf' eq_refl E) as R.
    cbn [app] in R. unfold run in R. now rewrite R.
Qed.

Lemma update_after_create_witness :
  snd (run (update_post 2 (json [("title", VStr "Edited")]))
         (snd (run (add_post (json [("title", VStr "Third"); ("content", VStr "text")]))
                 [Post.mk 2 (VStr "Second post") (VStr "This is the second post.")])))
  = [ Post.mk 2 (VStr "Edited") (VStr "This is the second post."); Post.mk 2 (VStr "Third") (VStr "text") ].
Proof.
  apply (proj2 (update_after_create (json [("title", VStr "Third"); ("content", VStr "text")])
                  (json [("title", VStr "Edited")])
                  [Post.mk 2 (VStr "Second post") (VStr "This is the second post.")]
                  eq_refl eq_refl
                  ltac:(intros [[H|[H|[H|[H|H]]]] _]; discriminate H))
           [] (Post.mk 2 (VStr "Second post") (VStr "This is the second post.")) []).
  repeat split. constructor.
Defined.
